(** * Cross-entropy-method training loop of
      Chapter01/06_neural_evolutionary_agent.ipynb

    A shallow embedding of [rollout], [gather_elite_xp],
    [gen_action_distribution] and [train].

    Conventions.
    - Python floats (rewards, percentiles) are embedded as exact rationals
      [Q]; every statement about them is up to [Qeq] and describes the
      round-off-free reading of the arithmetic.
    - Python integers are [Z]; list positions are [nat].
    - A raised exception is a value of [exn] carried by [result] (pure code)
      or by [outcome] (code that talks to the environment and the brain).
    - The environment, the brain and the sampling source are external
      collaborators: they are Section variables acting on explicit states,
      and every call to them is recorded in an event log. *)

From Stdlib Require Import ZArith QArith Qround Lqa Lia.
From Stdlib Require Import Sorting.Sorted Sorting.Permutation.
From stdpp Require Import base list.

Local Open Scope Q_scope.

(** ** Exceptions and results *)

Inductive exn : Set :=
| ValueError   (* bad unpacking, bad percentile, negative dimension *)
| IndexError.  (* index out of range *)

Inductive result (A : Type) : Type :=
| Ok (a : A)
| Err (e : exn).
Arguments Ok {A} a.
Arguments Err {A} e.

Definition rbind {A B : Type} (r : result A) (k : A -> result B) : result B :=
  match r with
  | Ok a => k a
  | Err e => Err e
  end.

#[global] Instance result_bind : MBind result := fun A B k r => rbind r k.
#[global] Instance result_ret : MRet result := @Ok.

(** ** Trajectories *)

Section Elite.

Context {FlatObs : Type}.

(** [Trajectory = namedtuple("Trajectory", ["obs", "actions", "reward"])] *)
Record Trajectory : Type := mkTrajectory {
  obs : list FlatObs;
  actions : list Z;
  reward : Q
}.

(** ** The percentile routine *)

Definition lerp (a b t : Q) : Q := a + (b - a) * t.

Fixpoint insert_sorted (x : Q) (l : list Q) : list Q :=
  match l with
  | [] => [x]
  | y :: l' => if Qle_bool x y then x :: y :: l' else y :: insert_sorted x l'
  end.

Fixpoint sort_asc (l : list Q) : list Q :=
  match l with
  | [] => []
  | x :: l' => insert_sorted x (sort_asc l')
  end.

Definition nth_Q (l : list Q) (i : nat) : Q := nth i l 0.

(** Modelled from the spec: [np.percentile] belongs to numpy and is not
    under src/. The spec pins it to linear interpolation between closest
    ranks, numpy's default method: the percentage is divided by 100 and
    rejected outside [0, 1]; the virtual index is [(n - 1) * q]; the result
    interpolates between the order statistics at its floor and at the next
    position (clipped to the last one). The empty array is never passed by
    [gather_elite_xp]; it is answered with [IndexError] here. *)
Definition np_percentile (a : list Q) (q : Q) : result Q :=
  let quantile := q / 100 in
  if negb (Qle_bool 0 quantile && Qle_bool quantile 1) then Err ValueError
  else
    match a with
    | [] => Err IndexError
    | _ :: _ =>
        let arr := sort_asc a in
        let n := length a in
        let virtual_index := inject_Z (Z.of_nat (n - 1)) * quantile in
        let previous_index := Z.to_nat (Qfloor virtual_index) in
        let next_index := Nat.min (previous_index + 1) (n - 1) in
        let gamma := virtual_index - inject_Z (Z.of_nat previous_index) in
        Ok (lerp (nth_Q arr previous_index) (nth_Q arr next_index) gamma)
    end.

(** ** gather_elite_xp *)

(** [zip( *trajectories )] unpacked into three names: with no trajectory the
    zip is empty and the unpacking raises [ValueError]. *)
Definition unzip_trajectories (trajectories : list Trajectory)
  : result (list (list FlatObs) * list (list Z) * list Q) :=
  match trajectories with
  | [] => Err ValueError
  | _ :: _ => Ok (map obs trajectories, map actions trajectories,
                  map reward trajectories)
  end.

Fixpoint enumerate_from {A : Type} (start : nat) (l : list A) : list (nat * A) :=
  match l with
  | [] => []
  | x :: l' => (start, x) :: enumerate_from (S start) l'
  end.

Definition enumerate {A : Type} (l : list A) : list (nat * A) :=
  enumerate_from 0 l.

(** [[index for index, value in enumerate(trajectory_rewards)
      if value >= reward_threshold]] *)
Definition elite_indices (trajectory_rewards : list Q) (reward_threshold : Q)
  : list nat :=
  map fst (List.filter (fun iv => Qle_bool reward_threshold (snd iv))
                       (enumerate trajectory_rewards)).

(** [[xs[i] for i in indices]]; indexing past the end raises [IndexError]. *)
Fixpoint take_indices {A : Type} (xs : list A) (indices : list nat)
  : result (list A) :=
  match indices with
  | [] => Ok []
  | i :: rest =>
      match xs !! i with
      | Some x => tl ← take_indices xs rest; Ok (x :: tl)
      | None => Err IndexError
      end
  end.

(** [[item for items in xss for item in items]] *)
Definition unpack {A : Type} (xss : list (list A)) : list A := concat xss.

(** The two [np.array(...)] of the [return] statement stack the flattened
    observations and the actions into arrays. Observations have one fixed
    shape, each being the flattened observation of the same environment, so
    stacking keeps the sequence as it is; a population whose observations
    differ in length, on which the conversion raises, is not represented. *)
Definition gather_elite_xp (trajectories : list Trajectory)
  (elitism_criterion : Q) : result (list FlatObs * list Z * Q) :=
  '(trajectory_obs, trajectory_actions, trajectory_rewards)
     ← unzip_trajectories trajectories;
  reward_threshold ← np_percentile trajectory_rewards elitism_criterion;
  let indices := elite_indices trajectory_rewards reward_threshold in
  elite_trajectory_obs ← take_indices trajectory_obs indices;
  elite_trajectory_actions ← take_indices trajectory_actions indices;
  Ok (unpack elite_trajectory_obs, unpack elite_trajectory_actions,
      reward_threshold).

End Elite.

Arguments Trajectory FlatObs : clear implicits.
Arguments mkTrajectory {FlatObs} obs actions reward.

(** ** gen_action_distribution *)

(** The default value of the [action_dim] parameter. *)
Definition default_action_dim : Z := 5.

(** The number of eight-byte entries from which numpy refuses an array: its
    byte size would no longer fit the signed 64-bit index type. *)
Definition max_array_entries : Z := 1152921504606846976. (* 2^60 *)

(** [np.zeros(action_dim)] raises [ValueError] on a negative dimension and
    on one whose array would exceed numpy's size limit; running out of
    memory below that limit is not represented. The item assignment follows
    numpy indexing: positions [0 .. action_dim - 1] are taken as they are,
    positions [-action_dim .. -1] count from the end, anything else raises
    [IndexError]. The index is an index-sized integer, as it is at the call
    site in [train], where it comes from [a.item()] on an int64 array: a
    Python integer too large for that type would raise [OverflowError]
    instead, which [exn] does not represent. *)
Definition gen_action_distribution (action_index : Z) (action_dim : Z)
  : result (list Z) :=
  if (action_dim <? 0)%Z then Err ValueError
  else if (max_array_entries <=? action_dim)%Z then Err ValueError
  else
    let action_distribution := replicate (Z.to_nat action_dim) 0%Z in
    if ((0 <=? action_index) && (action_index <? action_dim))%Z then
      Ok (<[Z.to_nat action_index := 1%Z]> action_distribution)
    else if ((- action_dim <=? action_index) && (action_index <? 0))%Z then
      Ok (<[Z.to_nat (action_dim + action_index) := 1%Z]> action_distribution)
    else Err IndexError.

(** [[gen_action_distribution(a.item()) for a in elite_actions]]: the call
    site in [train] passes no [action_dim], so the default is used. *)
Fixpoint encode_actions (elite_actions : list Z) : result (list (list Z)) :=
  match elite_actions with
  | [] => Ok []
  | a :: rest =>
      d ← gen_action_distribution a default_action_dim;
      ds ← encode_actions rest;
      Ok (d :: ds)
  end.

(** [np.mean] of a sequence of rewards. *)
Definition np_mean (xs : list Q) : Q :=
  fold_left Qplus xs 0 / inject_Z (Z.of_nat (length xs)).

(** ** The collaborators and the world they act on *)

(** [Brain]: a hidden layer of 32 units and an output layer [Dense(action_dim)]
    without activation; the weights are opaque. *)
Record Brain (Params : Type) : Type := mkBrain {
  dense1_units : Z;
  logits_units : Z;
  params : Params
}.
Arguments mkBrain {Params} dense1_units logits_units params.
Arguments dense1_units {Params} b.
Arguments logits_units {Params} b.
Arguments params {Params} b.

(** Calls that leave the core, in the order they are made. *)
Inductive Event (FlatObs : Type) : Type :=
| EvReset                                   (* env.reset() *)
| EvStep (action : Z)                       (* env.step(action) *)
| EvClose                                   (* env.close() *)
| EvFit (batch_obs : list FlatObs) (batch_labels : list (list Z))
                                            (* brain.fit(obs, actions, ...) *)
| EvPrint (epoch : nat) (elite_threshold mean_reward : Q)
| EvPlot (series : list Q).                 (* plt.plot(series, ...) *)
Arguments EvReset {FlatObs}.
Arguments EvStep {FlatObs} action.
Arguments EvClose {FlatObs}.
Arguments EvFit {FlatObs} batch_obs batch_labels.
Arguments EvPrint {FlatObs} epoch elite_threshold mean_reward.
Arguments EvPlot {FlatObs} series.

Record World (EnvSt Params Rng FlatObs : Type) : Type := mkWorld {
  w_env : EnvSt;
  w_brain : Brain Params;
  w_rng : Rng;
  w_log : list (Event FlatObs)
}.
Arguments mkWorld {EnvSt Params Rng FlatObs} w_env w_brain w_rng w_log.
Arguments w_env {EnvSt Params Rng FlatObs} w.
Arguments w_brain {EnvSt Params Rng FlatObs} w.
Arguments w_rng {EnvSt Params Rng FlatObs} w.
Arguments w_log {EnvSt Params Rng FlatObs} w.

(** How a call ends: it returns, it raises, or the fuel given to the
    [while not done] loop ran out before the environment reported [done]. *)
Inductive outcome (A : Type) : Type :=
| Ret (a : A)
| Raise (e : exn)
| OutOfFuel.
Arguments Ret {A} a.
Arguments Raise {A} e.
Arguments OutOfFuel {A}.

(** The environment adapter: [gym.make], the static metadata and the
    episode interface, acting on an explicit environment state. *)
Class Environment (EnvId EnvSt Obs : Type) : Type := {
  gym_make : EnvId -> EnvSt;
  action_space_n : EnvSt -> Z;
  observation_space_shape : EnvSt -> list Z;
  env_reset : EnvSt -> EnvSt * Obs;
  env_step : EnvSt -> Z -> EnvSt * (Obs * Q * bool);
  env_close : EnvSt -> EnvSt
}.

(** The numeric backend: [np.array(obs).reshape(-1)] and
    [.astype("float16")]; the initial weights of a network, its
    [predict_on_batch] on a batch of one and its [fit]; and
    [tf.random.categorical(tf.math.log(scores), num_samples=1)], which draws
    from the global random source. Both TensorFlow calls are total: the
    logarithm of a non-positive score is a NaN or -inf entry, not an
    exception, and the sampling kernel still answers with an index; so the
    pair is a function from the scores and the random state to an index,
    whatever the scores. Scores are exact rationals; which index the kernel
    draws from NaN or -inf entries is left to the instance. [fit] is total
    here as well: Keras rejecting a batch (for instance labels whose width
    is not that of the output layer) is not represented, so nothing below
    says that a [fit] call succeeds. *)
Class Backend (Params Rng Obs FlatObs : Type) : Type := {
  reshape_flat : Obs -> FlatObs;
  astype_float16 : FlatObs -> FlatObs;
  init_params : Z -> list Z -> Params;
  predict_on_batch : Brain Params -> Obs -> list Q;
  fit : Brain Params -> list FlatObs -> list (list Z) -> Params;
  categorical_of_log : Rng -> list Q -> Rng * Z
}.

Section Training.

Context {EnvId EnvSt Obs FlatObs Params Rng : Type}.
Context {E : Environment EnvId EnvSt Obs}.
Context {B : Backend Params Rng Obs FlatObs}.

#[local] Abbreviation world := (World EnvSt Params Rng FlatObs).
#[local] Abbreviation event := (Event FlatObs).
#[local] Abbreviation trajectory := (Trajectory FlatObs).

Definition M (A : Type) : Type := world -> world * outcome A.

Definition ret {A : Type} (a : A) : M A := fun w => (w, Ret a).

Definition bind {A B : Type} (m : M A) (k : A -> M B) : M B :=
  fun w =>
    match m w with
    | (w', Ret a) => k a w'
    | (w', Raise e) => (w', Raise e)
    | (w', OutOfFuel) => (w', OutOfFuel)
    end.

#[local] Instance M_bind : MBind M := fun A B k m => bind m k.

Definition lift {A : Type} (r : result A) : M A :=
  fun w => (w, match r with Ok a => Ret a | Err e => Raise e end).

Definition emit (ev : event) (w : world) : world :=
  mkWorld (w_env w) (w_brain w) (w_rng w) (w_log w ++ [ev]).

Definition reset : M Obs := fun w =>
  let '(e, o) := env_reset (w_env w) in
  (emit EvReset (mkWorld e (w_brain w) (w_rng w) (w_log w)), Ret o).

Definition step (action : Z) : M (Obs * Q * bool) := fun w =>
  let '(e, r) := env_step (w_env w) action in
  (emit (EvStep action) (mkWorld e (w_brain w) (w_rng w) (w_log w)), Ret r).

Definition close : M unit := fun w =>
  (emit EvClose (mkWorld (env_close (w_env w)) (w_brain w) (w_rng w) (w_log w)),
   Ret tt).

(** ** Agent *)

Definition Brain_init (action_dim : Z) (input_shape : list Z) : Brain Params :=
  mkBrain 32 action_dim (init_params action_dim input_shape).

(** [Agent.policy_mlp]; [get_action] dispatches to it. *)
Definition policy_mlp (observations : Obs) : M Z := fun w =>
  let action_logits := predict_on_batch (w_brain w) observations in
  let '(g, action) := categorical_of_log (w_rng w) action_logits in
  (mkWorld (w_env w) (w_brain w) g (w_log w), Ret action).

Definition get_action (observations : Obs) : M Z := policy_mlp observations.

(** [Agent.learn]: [self.brain.fit(obs, actions, **kwargs)]. *)
Definition learn (batch_obs : list FlatObs) (batch_labels : list (list Z))
  : M unit := fun w =>
  let b := w_brain w in
  let b' := mkBrain (dense1_units b) (logits_units b)
                    (fit b batch_obs batch_labels) in
  (emit (EvFit batch_obs batch_labels)
        (mkWorld (w_env w) b' (w_rng w) (w_log w)), Ret tt).

(** ** rollout *)

(** The [while not done] loop; one unit of fuel per iteration. *)
Fixpoint rollout_loop (fuel : nat) (o : Obs) (observations : list FlatObs)
  (acts : list Z) (episode_reward : Q) : M (list FlatObs * list Z * Q) :=
  match fuel with
  | O => fun w => (w, OutOfFuel)
  | S fuel' =>
      action ← get_action o;
      '(next_obs, r, done) ← step action;
      let observations := observations ++ [reshape_flat o] in
      let acts := acts ++ [action] in
      let episode_reward := episode_reward + r in
      if (done : bool) then ret (observations, acts, episode_reward)
      else rollout_loop fuel' next_obs observations acts episode_reward
  end.

Definition rollout (fuel : nat) : M (list FlatObs * list Z * Q) :=
  o ← reset;
  xp ← rollout_loop fuel o [] [] 0;
  _ ← close;
  ret xp.

(** ** train *)

(** [[Trajectory( *rollout(agent, env)) for _ in range(k)]] *)
Fixpoint rollouts (fuel : nat) (k : nat) : M (list trajectory) :=
  match k with
  | O => ret []
  | S k' =>
      '(observations, acts, episode_reward) ← rollout fuel;
      rest ← rollouts fuel k';
      ret (mkTrajectory observations acts episode_reward :: rest)
  end.

Definition emit_m (ev : event) : M unit := fun w => (emit ev w, Ret tt).

(** One iteration of [for i in tqdm(range(num_epochs))]. *)
Definition train_epoch (fuel : nat) (num_trajectory_rollouts : Z)
  (elitism_criterion : Q) (i : nat) (mean_rewards thresholds : list Q)
  : M (list Q * list Q) :=
  trajectories ← rollouts fuel (Z.to_nat num_trajectory_rollouts);
  '(_, _, batch_rewards) ← lift (unzip_trajectories trajectories);
  '(elite_obs, elite_actions, elite_threshold)
     ← lift (gather_elite_xp trajectories elitism_criterion);
  elite_action_distributions ← lift (encode_actions elite_actions);
  _ ← learn (map astype_float16 elite_obs) elite_action_distributions;
  let mean_rewards := mean_rewards ++ [np_mean batch_rewards] in
  let thresholds := thresholds ++ [elite_threshold] in
  _ ← emit_m (EvPrint (i + 1) elite_threshold (np_mean batch_rewards));
  ret (mean_rewards, thresholds).

Fixpoint train_epochs (fuel : nat) (num_trajectory_rollouts : Z)
  (elitism_criterion : Q) (remaining : nat) (i : nat)
  (mean_rewards thresholds : list Q) : M (list Q * list Q) :=
  match remaining with
  | O => ret (mean_rewards, thresholds)
  | S remaining' =>
      '(mean_rewards, thresholds)
         ← train_epoch fuel num_trajectory_rollouts elitism_criterion i
                       mean_rewards thresholds;
      train_epochs fuel num_trajectory_rollouts elitism_criterion
                   remaining' (S i) mean_rewards thresholds
  end.

(** What [train] hands back. The function has no [return] statement, so
    Python gives [None] to its caller; the history it accumulated goes to
    the two [plt.plot] calls. *)
Definition train_value : Type := option (list Q * list Q).

Definition train_body (fuel : nat) (num_trajectory_rollouts : Z)
  (elitism_criterion : Q) (num_epochs : Z) : M train_value :=
  '(mean_rewards, elite_reward_thresholds)
     ← train_epochs fuel num_trajectory_rollouts elitism_criterion
                    (Z.to_nat num_epochs) 0 [] [];
  _ ← emit_m (EvPlot mean_rewards);
  _ ← emit_m (EvPlot elite_reward_thresholds);
  ret None.

(** The first two statements of [train]: the environment made from
    [env_id] and an agent sized from its action and observation spaces.
    [seed] is the state of the global random source at the call; nothing
    has been logged yet. *)
Definition initial_world (seed : Rng) (env_id : EnvId) : world :=
  let env := gym_make env_id in
  let agent := Brain_init (action_space_n env) (observation_space_shape env) in
  mkWorld env agent seed [].

Definition train (fuel : nat) (seed : Rng) (env_id : EnvId)
  (num_trajectory_rollouts : Z) (elitism_criterion : Q) (num_epochs : Z)
  : world * outcome train_value :=
  train_body fuel num_trajectory_rollouts elitism_criterion num_epochs
             (initial_world seed env_id).

(** ** Episodes, described without the accumulators of [rollout]

    A transition records the observation the action was chosen from, the
    action, the reward of the step, the observation the environment answered
    with and its [done] flag. An episode from observation [o] is the chain of
    transitions up to the first one flagged [done]: each transition starts
    from the observation the previous one ended with. *)
Record Transition : Type := mkTransition {
  pre_obs : Obs;
  taken : Z;
  gained : Q;
  post_obs : Obs;
  finished : bool
}.

Inductive episode : world -> Obs -> list Transition -> world -> Prop :=
| episode_last (w w1 w2 : world) (o o' : Obs) (a : Z) (r : Q) :
    get_action o w = (w1, Ret a) ->
    step a w1 = (w2, Ret (o', r, true)) ->
    episode w o [mkTransition o a r o' true] w2
| episode_more (w w1 w2 w3 : world) (o o' : Obs) (a : Z) (r : Q)
    (rest : list Transition) :
    get_action o w = (w1, Ret a) ->
    step a w1 = (w2, Ret (o', r, false)) ->
    episode w2 o' rest w3 ->
    episode w o (mkTransition o a r o' false :: rest) w3.

(** A complete episode: [reset], then transitions until [done]. *)
Definition terminating_episode (w : world) (steps : list Transition)
  (w' : world) : Prop :=
  exists (w0 : world) (o0 : Obs),
    reset w = (w0, Ret o0) /\ episode w0 o0 steps w'.

(** The world after [env.close()]. *)
Definition closed (w : world) : world := fst (close w).

End Training.

Arguments Transition Obs : clear implicits.

(** The running total [0.0 + r1 + r2 + ...] of a reward sequence. *)
Definition running_total (rewards : list Q) : Q := fold_left Qplus rewards 0.

(** ** Predicates on the event log *)

(** Calls made to the environment. *)
Definition env_event {FlatObs : Type} (ev : Event FlatObs) : Prop :=
  match ev with
  | EvReset | EvStep _ | EvClose => True
  | _ => False
  end.

(** Every label of a [fit] call has length [n]. *)
Definition labels_of_length {FlatObs : Type} (n : nat) (ev : Event FlatObs)
  : Prop :=
  match ev with
  | EvFit _ batch_labels => Forall (fun d => length d = n) batch_labels
  | _ => True
  end.

(** ** Relations between the world before and after a call *)

Section WorldRelations.

Context {EnvSt Params Rng FlatObs : Type}.

#[local] Abbreviation world := (World EnvSt Params Rng FlatObs).

(** A computation respects [R] when [R] relates the world it starts from to
    the world it leaves, however it ends. *)
Definition respects (R : world -> world -> Prop) {A : Type} (m : M A) : Prop :=
  forall (w w' : world) (r : outcome A), m w = (w', r) -> R w w'.

(** Only the environment was called: the brain is untouched and the log grew
    by environment events. *)
Definition only_env_calls (w w' : world) : Prop :=
  w_brain w' = w_brain w /\
  exists l, w_log w' = w_log w ++ l /\ Forall env_event l.

(** The output layer keeps its width and every [fit] call logged so far has
    labels of length [n]. *)
Definition keeps_labels (n : nat) (w w' : world) : Prop :=
  logits_units (w_brain w') = logits_units (w_brain w) /\
  (Forall (labels_of_length n) (w_log w) ->
   Forall (labels_of_length n) (w_log w')).

End WorldRelations.

(** ** A toy environment and agent

    An episode lasts two steps; the observation is the step count; the reward
    of a step is the action taken. The brain scores three actions equally and
    the random source is a counter: the "sampled" action is the counter
    modulo 3. *)
Module Toy.

#[export] Instance toy_env : Environment unit nat nat := {|
  gym_make := fun _ => O;
  action_space_n := fun _ => 3%Z;
  observation_space_shape := fun _ => [1%Z];
  env_reset := fun _ => (O, O);
  env_step := fun t action =>
    (S t, (S t, inject_Z action, Nat.leb 2 (S t)));
  env_close := fun t => t
|}.

#[export] Instance toy_backend : Backend unit nat nat (list Z) := {|
  reshape_flat := fun o => [Z.of_nat o];
  astype_float16 := fun o => o;
  init_params := fun _ _ => tt;
  predict_on_batch := fun _ _ => [1; 1; 1];
  fit := fun _ _ _ => tt;
  categorical_of_log := fun g scores =>
    (S g, Z.of_nat (g mod length scores))
|}.

(** The world [train] starts from, with the random source at [seed]. *)
Definition world0 (seed : nat) : World nat unit nat (list Z) :=
  initial_world seed tt.

Definition toy_rollout (fuel : nat)
  : M (EnvSt := nat) (Params := unit) (Rng := nat) (list (list Z) * list Z * Q) :=
  rollout fuel.

Definition toy_train (num_trajectory_rollouts : Z) (elitism_criterion : Q)
  (num_epochs : Z) : World nat unit nat (list Z) * outcome train_value :=
  train 10 O tt num_trajectory_rollouts elitism_criterion num_epochs.

End Toy.

(** ** The percentile in the words of the specification

    "Linear interpolation between closest ranks": take the rewards in
    ascending order, locate the fractional rank [h = p/100 * (n - 1)] between
    the ranks [k <= h < k + 1], and move from the order statistic at rank [k]
    towards the next one by the fraction [h - k]. *)
Definition is_linear_percentile (rewards : list Q) (p : Q) (threshold : Q)
  : Prop :=
  exists (ascending : list Q) (k : nat) (lo hi : Q),
    Permutation ascending rewards /\
    Sorted Qle ascending /\
    let h := p / 100 * inject_Z (Z.of_nat (length rewards - 1)) in
    inject_Z (Z.of_nat k) <= h /\
    h < inject_Z (Z.of_nat k) + 1 /\
    ascending !! k = Some lo /\
    ascending !! Nat.min (k + 1) (length rewards - 1) = Some hi /\
    threshold == lo + (h - inject_Z (Z.of_nat k)) * (hi - lo).

(** The trajectories a threshold keeps, in input order. *)
Definition kept {FlatObs : Type} (threshold : Q)
  (trajectories : list (Trajectory FlatObs)) : list (Trajectory FlatObs) :=
  List.filter (fun t => Qle_bool threshold (reward t)) trajectories.

(** ** evaluate *)

(** What [evaluate] uses beyond the episode interface: [env.render()], and
    the [info] value a step answers with, read off the state the step starts
    from and the action. Rendering is not written to the event log. *)
Class Monitor (EnvSt Info : Type) : Type := {
  env_render : EnvSt -> EnvSt;
  step_info : EnvSt -> Z -> Info
}.

Section Evaluation.

Context {EnvId EnvSt Obs FlatObs Params Rng Info : Type}.
Context {E : Environment EnvId EnvSt Obs}.
Context {B : Backend Params Rng Obs FlatObs}.
Context {Mo : Monitor EnvSt Info}.

#[local] Existing Instance M_bind.

Definition render : M (FlatObs := FlatObs) (Params := Params) (Rng := Rng) unit :=
  fun w =>
    (mkWorld (env_render (w_env w)) (w_brain w) (w_rng w) (w_log w), Ret tt).

Definition info_of_step (action : Z)
  : M (FlatObs := FlatObs) (Params := Params) (Rng := Rng) Info :=
  fun w => (w, Ret (step_info (w_env w) action)).

(** The [while not done] loop of [evaluate]. [info] starts as [None] and is
    overwritten by every step, so what is returned is the last step's. *)
Fixpoint evaluate_loop (fuel : nat) (render_flag : bool) (o : Obs)
  (episode_reward : Q) (step_num : Z)
  : M (FlatObs := FlatObs) (Z * Q * bool * option Info) :=
  match fuel with
  | O => fun w => (w, OutOfFuel)
  | S fuel' =>
      action ← get_action o;
      info ← info_of_step action;
      '(next_obs, r, done) ← step action;
      let episode_reward := episode_reward + r in
      let step_num := (step_num + 1)%Z in
      _ ← (if render_flag then render else ret tt);
      if (done : bool) then ret (step_num, episode_reward, done, Some info)
      else evaluate_loop fuel' render_flag next_obs episode_reward step_num
  end.

Definition evaluate (fuel : nat) (render_flag : bool)
  : M (FlatObs := FlatObs) (Z * Q * bool * option Info) :=
  o ← reset;
  evaluate_loop fuel render_flag o 0 0%Z.

End Evaluation.

(** ** Counting and shaping the event log *)

Definition reset_b {FlatObs : Type} (ev : Event FlatObs) : bool :=
  match ev with EvReset => true | _ => false end.

Definition close_b {FlatObs : Type} (ev : Event FlatObs) : bool :=
  match ev with EvClose => true | _ => false end.

Definition fit_b {FlatObs : Type} (ev : Event FlatObs) : bool :=
  match ev with EvFit _ _ => true | _ => false end.

Definition print_b {FlatObs : Type} (ev : Event FlatObs) : bool :=
  match ev with EvPrint _ _ _ => true | _ => false end.

Definition count_events {FlatObs : Type} (f : Event FlatObs -> bool)
  (log : list (Event FlatObs)) : nat :=
  length (List.filter f log).

(** The calls of one returned rollout that recorded the actions [acts]. *)
Definition rollout_events {FlatObs : Type} (acts : list Z)
  : list (Event FlatObs) :=
  EvReset :: map EvStep acts ++ [EvClose].

Definition sum_Z (l : list Z) : Z := fold_right Z.add 0%Z l.

(** The one-hot vector of length [n] with its 1 at position [i]. *)
Definition one_hot (n i : nat) : list Z := <[i := 1%Z]> (replicate n 0%Z).

(** The position numpy assigns to index [a] in an array of length [dim]. *)
Definition wrapped_index (a dim : Z) : nat :=
  Z.to_nat (if (a <? 0)%Z then dim + a else a)%Z.

(** A [fit] call whose batch is not empty and pairs every observation with
    one label. *)
Definition fit_paired {FlatObs : Type} (ev : Event FlatObs) : Prop :=
  match ev with
  | EvFit batch_obs batch_labels =>
      length batch_obs = length batch_labels /\ (1 <= length batch_obs)%nat
  | _ => True
  end.

(** Every [fit] call logged so far is paired, if it was so before. *)
Definition keeps_paired {EnvSt Params Rng FlatObs : Type}
  (w w' : World EnvSt Params Rng FlatObs) : Prop :=
  Forall fit_paired (w_log w) -> Forall fit_paired (w_log w').

(** A [fit] call whose labels are the encodings, at the default width of 5,
    of a non-empty sequence of actions, one for each observation of the
    batch. *)
Definition fit_encoded {FlatObs : Type} (ev : Event FlatObs) : Prop :=
  match ev with
  | EvFit batch_obs batch_labels =>
      exists elite_actions : list Z,
        (1 <= length elite_actions)%nat /\
        length batch_obs = length elite_actions /\
        batch_labels =
          map (fun a => one_hot 5 (wrapped_index a 5)) elite_actions
  | _ => True
  end.

(** Every [fit] call logged so far is encoded, if it was so before. *)
Definition keeps_encoded {EnvSt Params Rng FlatObs : Type}
  (w w' : World EnvSt Params Rng FlatObs) : Prop :=
  Forall fit_encoded (w_log w) -> Forall fit_encoded (w_log w').

(** The log only grows: what was logged stays logged. *)
Definition log_grows {EnvSt Params Rng FlatObs : Type}
  (w w' : World EnvSt Params Rng FlatObs) : Prop :=
  exists l, w_log w' = w_log w ++ l.

(** ** A brain whose scores are all non-positive

    The toy backend with the scores 0, -1 and -2 for the three actions. *)
Module Malformed.

#[export] Instance malformed_backend : Backend unit nat nat (list Z) := {|
  reshape_flat := fun o => [Z.of_nat o];
  astype_float16 := fun o => o;
  init_params := fun _ _ => tt;
  predict_on_batch := fun _ _ => [0; -1; -2];
  fit := fun _ _ _ => tt;
  categorical_of_log := fun g scores =>
    (S g, Z.of_nat (g mod length scores))
|}.

End Malformed.

(** ** An environment that never reports [done] *)
Module Endless.

#[export] Instance endless_env : Environment unit nat nat := {|
  gym_make := fun _ => O;
  action_space_n := fun _ => 3%Z;
  observation_space_shape := fun _ => [1%Z];
  env_reset := fun _ => (O, O);
  env_step := fun t action => (S t, (S t, inject_Z action, false));
  env_close := fun t => t
|}.

End Endless.

(** The toy environment renders without effect and reports the step count
    as [info]. *)
#[global] Instance toy_monitor : Monitor nat nat := {|
  env_render := fun t => t;
  step_info := fun t _ => S t
|}.

(** * Properties *)

(** ** Sorting *)

Lemma insert_sorted_perm (x : Q) (l : list Q) :
  Permutation (insert_sorted x l) (x :: l).
Proof.
  induction l as [|y l IH]; simpl; [reflexivity|].
  destruct (Qle_bool x y); [reflexivity|].
  rewrite IH. apply perm_swap.
Qed.

Lemma sort_asc_perm (l : list Q) : Permutation (sort_asc l) l.
Proof.
  induction l as [|x l IH]; simpl; [reflexivity|].
  rewrite insert_sorted_perm. now constructor.
Qed.

Lemma sort_asc_length (l : list Q) : length (sort_asc l) = length l.
Proof. apply Permutation_length, sort_asc_perm. Qed.

Lemma insert_sorted_hd (x : Q) (l : list Q) (z : Q) :
  z <= x -> HdRel Qle z l -> HdRel Qle z (insert_sorted x l).
Proof.
  intros Hzx Hl. destruct l as [|y l]; simpl; [now constructor|].
  destruct (Qle_bool x y); constructor; [assumption|].
  now inversion Hl.
Qed.

Lemma insert_sorted_sorted (x : Q) (l : list Q) :
  Sorted Qle l -> Sorted Qle (insert_sorted x l).
Proof.
  induction 1 as [|y l Hs IH Hhd]; simpl; [repeat constructor|].
  destruct (Qle_bool x y) eqn:E.
  - apply Qle_bool_iff in E. repeat constructor; assumption.
  - assert (y <= x) as Hyx.
    { apply Qlt_le_weak, Qnot_le_lt. intros H. apply Qle_bool_iff in H.
      congruence. }
    constructor; [assumption|]. now apply insert_sorted_hd.
Qed.

Lemma sort_asc_sorted (l : list Q) : Sorted Qle (sort_asc l).
Proof.
  induction l as [|x l IH]; simpl; [constructor|].
  now apply insert_sorted_sorted.
Qed.

Lemma nth_Q_lookup (l : list Q) (i : nat) :
  (i < length l)%nat -> l !! i = Some (nth_Q l i).
Proof.
  intros Hi. unfold nth_Q.
  destruct (lookup_lt_is_Some_2 l i Hi) as [x Hx].
  rewrite Hx. f_equal. symmetry. now apply nth_lookup_Some.
Qed.

Lemma nth_Q_sort_In (l : list Q) (i : nat) :
  (i < length l)%nat -> In (nth_Q (sort_asc l) i) l.
Proof.
  intros Hi. apply (Permutation_in _ (sort_asc_perm l)).
  apply nth_In. now rewrite sort_asc_length.
Qed.

(** ** The percentile routine *)

Lemma percent_scaled (q : Q) : q == q / 100 * 100.
Proof. field. Qed.

Lemma percent_valid (q : Q) :
  0 <= q <= 100 ->
  negb (Qle_bool 0 (q / 100) && Qle_bool (q / 100) 1) = false.
Proof.
  intros [H0 H1]. pose proof (percent_scaled q) as Hq.
  apply negb_false_iff, andb_true_iff.
  split; apply Qle_bool_iff; set (t := q / 100) in *; lra.
Qed.

Lemma percent_invalid (q : Q) :
  q < 0 \/ 100 < q ->
  negb (Qle_bool 0 (q / 100) && Qle_bool (q / 100) 1) = true.
Proof.
  intros H. pose proof (percent_scaled q) as Hq.
  apply negb_true_iff, andb_false_iff.
  destruct H as [H|H]; [left|right]; apply not_true_is_false; intros E;
    apply Qle_bool_iff in E; set (t := q / 100) in *; lra.
Qed.

(** The floor of the virtual index is a position of the array, and the
    virtual index lies within one rank above it. *)
Lemma rank_bounds (n : nat) (q : Q) :
  0 <= q <= 100 ->
  let h := inject_Z (Z.of_nat (n - 1)) * (q / 100) in
  let k := Z.to_nat (Qfloor h) in
  inject_Z (Z.of_nat k) <= h /\
  h < inject_Z (Z.of_nat k) + 1 /\
  (k <= n - 1)%nat.
Proof.
  intros Hq h k. pose proof (percent_scaled q) as Hs.
  assert (0 <= inject_Z (Z.of_nat (n - 1))) as Hn.
  { change 0 with (inject_Z 0). rewrite <- Zle_Qle. lia. }
  assert (0 <= h /\ h <= inject_Z (Z.of_nat (n - 1))) as [Hh0 Hh1].
  { subst h. set (t := q / 100) in *. set (m := inject_Z _) in *.
    split; nra. }
  assert (0 <= Qfloor h)%Z as Hf0.
  { change 0%Z with (Qfloor 0). now apply Qfloor_resp_le. }
  assert (Qfloor h <= Z.of_nat (n - 1))%Z as Hf1.
  { rewrite <- (Qfloor_Z (Z.of_nat (n - 1))). now apply Qfloor_resp_le. }
  subst k. rewrite Z2Nat.id by assumption.
  split; [apply Qfloor_le|]. split.
  - pose proof (Qlt_floor h) as Hlt. now rewrite inject_Z_plus in Hlt.
  - lia.
Qed.

Lemma np_percentile_ok (a : list Q) (q : Q) :
  a <> [] -> 0 <= q <= 100 ->
  let h := inject_Z (Z.of_nat (length a - 1)) * (q / 100) in
  let k := Z.to_nat (Qfloor h) in
  np_percentile a q =
    Ok (lerp (nth_Q (sort_asc a) k)
             (nth_Q (sort_asc a) (Nat.min (k + 1) (length a - 1)))
             (h - inject_Z (Z.of_nat k))).
Proof.
  intros Ha Hq h k. unfold np_percentile.
  rewrite percent_valid by assumption.
  destruct a; [contradiction|reflexivity].
Qed.

Lemma np_percentile_invalid (a : list Q) (q : Q) :
  q < 0 \/ 100 < q -> np_percentile a q = Err ValueError.
Proof.
  intros Hq. unfold np_percentile. now rewrite percent_invalid.
Qed.

(** The routine computes the percentile the specification describes. *)
Lemma np_percentile_linear (a : list Q) (q : Q) :
  a <> [] -> 0 <= q <= 100 ->
  exists threshold,
    np_percentile a q = Ok threshold /\ is_linear_percentile a q threshold.
Proof.
  intros Ha Hq. rewrite np_percentile_ok by assumption.
  eexists; split; [reflexivity|].
  destruct (rank_bounds (length a) q Hq) as (Hk0 & Hk1 & Hk).
  set (h := inject_Z _ * _) in *. set (k := Z.to_nat (Qfloor h)) in *.
  assert (0 < length a)%nat as Hlen by (destruct a; [contradiction|simpl; lia]).
  exists (sort_asc a), k, (nth_Q (sort_asc a) k),
    (nth_Q (sort_asc a) (Nat.min (k + 1) (length a - 1))).
  split; [apply sort_asc_perm|]. split; [apply sort_asc_sorted|].
  assert (q / 100 * inject_Z (Z.of_nat (length a - 1)) == h) as Hh
    by (subst h; ring).
  cbv zeta. rewrite !Hh.
  split; [assumption|]. split; [assumption|].
  split; [apply nth_Q_lookup; rewrite sort_asc_length; lia|].
  split; [apply nth_Q_lookup; rewrite sort_asc_length; lia|].
  unfold lerp. ring.
Qed.

(** The percentile never exceeds the largest reward. *)
Lemma np_percentile_le_some (a : list Q) (q : Q) :
  a <> [] -> 0 <= q <= 100 ->
  exists threshold x,
    np_percentile a q = Ok threshold /\ In x a /\ threshold <= x.
Proof.
  intros Ha Hq. rewrite np_percentile_ok by assumption.
  destruct (rank_bounds (length a) q Hq) as (Hk0 & Hk1 & Hk).
  set (h := inject_Z _ * _) in *. set (k := Z.to_nat (Qfloor h)) in *.
  assert (0 < length a)%nat as Hlen by (destruct a; [contradiction|simpl; lia]).
  set (lo := nth_Q (sort_asc a) k).
  set (hi := nth_Q (sort_asc a) (Nat.min (k + 1) (length a - 1))).
  assert (In lo a) as Hlo by (apply nth_Q_sort_In; lia).
  assert (In hi a) as Hhi by (apply nth_Q_sort_In; lia).
  set (g := h - inject_Z (Z.of_nat k)).
  assert (0 <= g /\ g < 1) as [Hg0 Hg1] by (subst g; split; lra).
  destruct (Qlt_le_dec hi lo) as [Hlt|Hle].
  - exists (lerp lo hi g), lo. split; [reflexivity|]. split; [assumption|].
    unfold lerp. nra.
  - exists (lerp lo hi g), hi. split; [reflexivity|]. split; [assumption|].
    unfold lerp. nra.
Qed.

(** On a population of identical rewards the percentile is that reward. *)
Lemma np_percentile_constant (a : list Q) (q r : Q) :
  a <> [] -> 0 <= q <= 100 -> (forall x, In x a -> x == r) ->
  exists threshold, np_percentile a q = Ok threshold /\ threshold == r.
Proof.
  intros Ha Hq Hall. rewrite np_percentile_ok by assumption.
  destruct (rank_bounds (length a) q Hq) as (Hk0 & Hk1 & Hk).
  set (h := inject_Z _ * _) in *. set (k := Z.to_nat (Qfloor h)) in *.
  assert (0 < length a)%nat as Hlen by (destruct a; [contradiction|simpl; lia]).
  eexists; split; [reflexivity|].
  unfold lerp.
  rewrite (Hall (nth_Q (sort_asc a) k)) by (apply nth_Q_sort_In; lia).
  rewrite (Hall (nth_Q (sort_asc a) (Nat.min (k + 1) (length a - 1))))
    by (apply nth_Q_sort_In; lia).
  ring.
Qed.

(** ** Elite selection *)

Section EliteFacts.

Context {FlatObs : Type}.
Implicit Types (trajectories : list (Trajectory FlatObs)) (threshold : Q).

Lemma enumerate_from_In {A : Type} (l : list A) (start i : nat) (x : A) :
  In (i, x) (enumerate_from start l) <->
  (start <= i)%nat /\ l !! (i - start)%nat = Some x.
Proof.
  revert start. induction l as [|y l IH]; intros start; simpl.
  - split; [tauto|]. intros [_ H]. discriminate.
  - rewrite IH. split.
    + intros [H|[Hle Hl]].
      * inversion H; subst. split; [lia|]. now rewrite Nat.sub_diag.
      * split; [lia|]. replace (i - start)%nat with (S (i - S start)) by lia.
        exact Hl.
    + intros [Hle Hl]. destruct (i - start)%nat as [|j] eqn:E.
      * left. simpl in Hl. inversion Hl; subst. f_equal. lia.
      * right. split; [lia|]. replace (i - S start)%nat with j by lia.
        exact Hl.
Qed.

(** The indices selected are exactly the positions whose reward reaches the
    threshold. *)
Lemma elite_indices_In (rewards : list Q) threshold (i : nat) :
  In i (elite_indices rewards threshold) <->
  exists r, rewards !! i = Some r /\ threshold <= r.
Proof.
  unfold elite_indices, enumerate. rewrite in_map_iff. split.
  - intros [[j r] [Hj Hin]]. simpl in Hj. subst j.
    apply filter_In in Hin as [Hin Hle]. simpl in Hle.
    apply enumerate_from_In in Hin as [_ Hl]. rewrite Nat.sub_0_r in Hl.
    exists r. split; [assumption|]. now apply Qle_bool_iff.
  - intros [r [Hl Hle]]. exists (i, r). split; [reflexivity|].
    apply filter_In. split.
    + apply enumerate_from_In. rewrite Nat.sub_0_r. split; [lia|assumption].
    + simpl. now apply Qle_bool_iff.
Qed.

(** Picking a field at the selected indices is filtering the trajectories
    and mapping the field, in input order. *)
Lemma take_indices_suffix {A : Type} (f : Trajectory FlatObs -> A)
  threshold (pre suf : list (Trajectory FlatObs)) :
  take_indices (map f (pre ++ suf))
    (map fst (List.filter (fun iv => Qle_bool threshold (snd iv))
                (enumerate_from (length pre) (map reward suf))))
  = Ok (map f (kept threshold suf)).
Proof.
  revert pre. induction suf as [|t suf IH]; intros pre; [reflexivity|].
  assert (take_indices (map f (pre ++ t :: suf))
    (map fst (List.filter (fun iv => Qle_bool threshold (snd iv))
                (enumerate_from (S (length pre)) (map reward suf))))
    = Ok (map f (kept threshold suf))) as Hrest.
  { specialize (IH (pre ++ [t])).
    rewrite <- app_assoc, length_app, Nat.add_1_r in IH. exact IH. }
  unfold kept. simpl. destruct (Qle_bool threshold (reward t)); simpl.
  - rewrite list_lookup_fmap, lookup_app_r, Nat.sub_diag by lia. simpl.
    rewrite Hrest. reflexivity.
  - exact Hrest.
Qed.

Lemma take_indices_elite {A : Type} (f : Trajectory FlatObs -> A)
  threshold trajectories :
  take_indices (map f trajectories)
    (elite_indices (map reward trajectories) threshold)
  = Ok (map f (kept threshold trajectories)).
Proof. apply (take_indices_suffix f threshold [] trajectories). Qed.

(** Once the percentile is known, the batch is determined. *)
Lemma gather_elite_xp_kept trajectories (p : Q) threshold :
  trajectories <> [] ->
  np_percentile (map reward trajectories) p = Ok threshold ->
  gather_elite_xp trajectories p =
    Ok (concat (map obs (kept threshold trajectories)),
        concat (map actions (kept threshold trajectories)),
        threshold).
Proof.
  intros Hne Hp. unfold gather_elite_xp.
  destruct trajectories as [|t ts]; [contradiction|].
  cbn [unzip_trajectories mbind result_bind rbind].
  rewrite Hp. cbn [mbind result_bind rbind].
  rewrite !take_indices_elite. reflexivity.
Qed.

Lemma gather_elite_xp_empty (p : Q) :
  gather_elite_xp (@nil (Trajectory FlatObs)) p = Err ValueError.
Proof. reflexivity. Qed.

Lemma gather_elite_xp_invalid trajectories (p : Q) :
  p < 0 \/ 100 < p -> gather_elite_xp trajectories p = Err ValueError.
Proof.
  intros Hp. unfold gather_elite_xp.
  destruct trajectories as [|t ts]; [reflexivity|].
  cbn [unzip_trajectories mbind result_bind rbind].
  now rewrite np_percentile_invalid.
Qed.

Lemma kept_In threshold trajectories (t : Trajectory FlatObs) :
  In t (kept threshold trajectories) <->
  In t trajectories /\ threshold <= reward t.
Proof.
  unfold kept. rewrite filter_In. now rewrite Qle_bool_iff.
Qed.

Lemma kept_all threshold trajectories :
  (forall t, In t trajectories -> threshold <= reward t) ->
  kept threshold trajectories = trajectories.
Proof.
  induction trajectories as [|t ts IH]; intros Hall; [reflexivity|].
  unfold kept. simpl.
  assert (Qle_bool threshold (reward t) = true) as ->
    by (apply Qle_bool_iff, Hall; now left).
  f_equal. apply IH. intros u Hu. apply Hall. now right.
Qed.

End EliteFacts.

Section EliteClaims.

Context {FlatObs : Type}.
Implicit Types (trajectories : list (Trajectory FlatObs)) (threshold : Q).

(** C1. For a non-empty sequence of trajectories and a percentile in
    [0, 100], [gather_elite_xp] returns; its threshold is the
    linear-interpolation percentile of the rewards; the batches are those of
    the trajectories whose reward is at least the threshold, and a trajectory
    is selected exactly when its reward reaches the threshold: a reward below
    it is excluded. *)
Theorem gather_elite_xp_percentile_filter trajectories (percentile : Q) :
  trajectories <> [] ->
  0 <= percentile <= 100 ->
  exists threshold,
    gather_elite_xp trajectories percentile =
      Ok (concat (map obs (kept threshold trajectories)),
          concat (map actions (kept threshold trajectories)),
          threshold) /\
    is_linear_percentile (map reward trajectories) percentile threshold /\
    forall (i : nat) (t : Trajectory FlatObs),
      trajectories !! i = Some t ->
      (threshold <= reward t ->
         In i (elite_indices (map reward trajectories) threshold) /\
         In t (kept threshold trajectories)) /\
      (reward t < threshold ->
         ~ In i (elite_indices (map reward trajectories) threshold) /\
         ~ In t (kept threshold trajectories)).
Proof.
  intros Hne Hp.
  assert (map reward trajectories <> []) as Hr
    by (destruct trajectories; [contradiction|discriminate]).
  destruct (np_percentile_linear _ _ Hr Hp) as (threshold & Hth & Hlin).
  exists threshold. split; [now apply gather_elite_xp_kept|].
  split; [assumption|].
  intros i t Hi. split.
  - intros Hle. split.
    + apply elite_indices_In. exists (reward t). split; [|assumption].
      rewrite list_lookup_fmap, Hi. reflexivity.
    + apply kept_In. split; [|assumption].
      apply list_elem_of_In. eapply list_elem_of_lookup_2. exact Hi.
  - intros Hlt. split.
    + intros Hin. apply elite_indices_In in Hin as (r & Hl & Hle).
      rewrite list_lookup_fmap, Hi in Hl. inversion Hl; subst. lra.
    + intros Hin. apply kept_In in Hin as [_ Hle]. lra.
Qed.

(** C4. For a non-empty population and a percentile in [0, 100], some
    trajectory of the population reaches the threshold and is kept, so the
    elite set is not empty; when all rewards equal [r], the threshold is [r]
    and the whole population is kept. *)
Theorem gather_elite_xp_nonempty trajectories (percentile : Q) :
  trajectories <> [] ->
  0 <= percentile <= 100 ->
  exists threshold,
    gather_elite_xp trajectories percentile =
      Ok (concat (map obs (kept threshold trajectories)),
          concat (map actions (kept threshold trajectories)),
          threshold) /\
    (exists t, In t trajectories /\ threshold <= reward t /\
               In t (kept threshold trajectories)) /\
    (forall r, (forall t, In t trajectories -> reward t == r) ->
               threshold == r /\ kept threshold trajectories = trajectories).
Proof.
  intros Hne Hp.
  assert (map reward trajectories <> []) as Hr
    by (destruct trajectories; [contradiction|discriminate]).
  destruct (np_percentile_le_some _ _ Hr Hp) as (threshold & x & Hth & Hx & Hle).
  exists threshold. split; [now apply gather_elite_xp_kept|]. split.
  - apply in_map_iff in Hx as (t & Ht & Hin). subst x.
    exists t. split; [assumption|]. split; [assumption|].
    apply kept_In. now split.
  - intros r Hall.
    destruct (np_percentile_constant (map reward trajectories) percentile r
                Hr Hp) as (th' & Hth' & Heq).
    { intros y Hy. apply in_map_iff in Hy as (t & Ht & Hin). subst y.
      now apply Hall. }
    rewrite Hth in Hth'. inversion Hth'; subst th'.
    split; [assumption|]. apply kept_all.
    intros t Ht. rewrite Heq, (Hall t Ht). apply Qle_refl.
Qed.

(** C5. With three trajectories of rewards 1.0, 5.0 and 9.0 and percentile
    70, the threshold is 6.6 and only the trajectory of reward 9.0 is kept:
    the batches are its observations and its actions. *)
Theorem gather_elite_xp_example (o1 o2 o3 : list FlatObs) (a1 a2 a3 : list Z) :
  let population :=
    [mkTrajectory o1 a1 1; mkTrajectory o2 a2 5; mkTrajectory o3 a3 9] in
  exists threshold,
    gather_elite_xp population 70 = Ok (o3, a3, threshold) /\
    threshold == 6.6 /\
    kept threshold population = [mkTrajectory o3 a3 9] /\
    elite_indices (map reward population) threshold = [2%nat].
Proof.
  intros population. exists (660 # 100).
  assert (np_percentile (map reward population) 70 = Ok (660 # 100)) as Hth
    by (vm_compute; reflexivity).
  assert (kept (660 # 100) population = [mkTrajectory o3 a3 9]) as Hkept
    by reflexivity.
  split; [|split; [|split]].
  - rewrite (gather_elite_xp_kept population 70 (660 # 100))
      by (discriminate || exact Hth).
    rewrite Hkept. cbn. rewrite !app_nil_r. reflexivity.
  - reflexivity.
  - exact Hkept.
  - reflexivity.
Qed.

(** C6. When both trajectories of [[T1; T2]] reach the threshold, the
    batches are [T1]'s observations followed by [T2]'s, and likewise for the
    actions: input order and step order are kept. *)
Theorem gather_elite_xp_concat_order (T1 T2 : Trajectory FlatObs)
  (percentile : Q) threshold :
  np_percentile [reward T1; reward T2] percentile = Ok threshold ->
  threshold <= reward T1 ->
  threshold <= reward T2 ->
  gather_elite_xp [T1; T2] percentile =
    Ok (obs T1 ++ obs T2, actions T1 ++ actions T2, threshold).
Proof.
  intros Hth H1 H2.
  rewrite (gather_elite_xp_kept [T1; T2] percentile threshold)
    by (discriminate || exact Hth).
  rewrite kept_all.
  - cbn. rewrite !app_nil_r. reflexivity.
  - intros t [<-|[<-|[]]]; assumption.
Qed.

End EliteClaims.

(** ** Label encoding *)

Lemma one_hot_spec (n i : nat) :
  (i < n)%nat ->
  let v := <[i := 1%Z]> (replicate n 0%Z) in
  length v = n /\
  v !! i = Some 1%Z /\
  forall j : nat, (j < n)%nat -> j <> i -> v !! j = Some 0%Z.
Proof.
  intros Hi v. subst v. split; [|split].
  - now rewrite length_insert, length_replicate.
  - apply list_lookup_insert_eq. now rewrite length_replicate.
  - intros j Hj Hne. rewrite list_lookup_insert_ne by congruence.
    now apply lookup_replicate_2.
Qed.


Lemma gen_action_distribution_length (a dim : Z) (v : list Z) :
  gen_action_distribution a dim = Ok v -> length v = Z.to_nat dim.
Proof.
  unfold gen_action_distribution.
  destruct (dim <? 0)%Z; [discriminate|].
  destruct (max_array_entries <=? dim)%Z; [discriminate|].
  destruct ((0 <=? a) && (a <? dim))%Z.
  - intros H. inversion H. now rewrite length_insert, length_replicate.
  - destruct ((- dim <=? a) && (a <? 0))%Z; [|discriminate].
    intros H. inversion H. now rewrite length_insert, length_replicate.
Qed.




(** Every label built by [encode_actions] has the default length. *)
Lemma encode_actions_lengths (elite_actions : list Z) (labels : list (list Z)) :
  encode_actions elite_actions = Ok labels ->
  Forall (fun d => length d = Z.to_nat default_action_dim) labels.
Proof.
  revert labels. induction elite_actions as [|a rest IH]; intros labels.
  - intros H. inversion H. constructor.
  - cbn [encode_actions mbind result_bind rbind].
    destruct (gen_action_distribution a default_action_dim) as [d|e] eqn:Ed;
      [|discriminate].
    cbn [rbind]. destruct (encode_actions rest) as [ds|e] eqn:Er;
      [|discriminate].
    cbn [rbind]. intros H. inversion H; subst. constructor.
    + eapply gen_action_distribution_length. exact Ed.
    + now apply IH.
Qed.

(** ** Episodes and rollout *)

Section RolloutFacts.

Context {EnvId EnvSt Obs FlatObs Params Rng : Type}.
Context {E : Environment EnvId EnvSt Obs}.
Context {B : Backend Params Rng Obs FlatObs}.

#[local] Abbreviation world := (World EnvSt Params Rng FlatObs).

Lemma bind_ret {A C : Type} (m : M A) (k : A -> M C) (w w' : world) (a : A) :
  m w = (w', Ret a) -> bind m k w = k a w'.
Proof. intros H. unfold bind. now rewrite H. Qed.

Lemma bind_raise {A C : Type} (m : M A) (k : A -> M C) (w w' : world)
  (e : exn) :
  m w = (w', Raise e) -> bind m k w = (w', Raise e).
Proof. intros H. unfold bind. now rewrite H. Qed.

(** The loop replays an episode: what it appends to its accumulators are the
    pre-step observations, the actions and the rewards of the transitions. *)
Lemma rollout_loop_episode (w w' : world) (o : Obs)
  (steps : list (Transition Obs)) :
  episode w o steps w' ->
  forall (fuel : nat) (observations : list FlatObs) (acts : list Z) (total : Q),
    (length steps <= fuel)%nat ->
    rollout_loop fuel o observations acts total w =
      (w', Ret (observations ++ map (fun t => reshape_flat (pre_obs t)) steps,
                acts ++ map taken steps,
                fold_left Qplus (map gained steps) total)).
Proof.
  induction 1 as [w w1 w2 o o' a r Hact Hstep
                 |w w1 w2 w3 o o' a r rest Hact Hstep Hrest IH];
    intros fuel observations acts total Hfuel;
    (destruct fuel as [|fuel]; [simpl in Hfuel; lia|]);
    cbn [rollout_loop]; unfold mbind, M_bind;
    rewrite (bind_ret _ _ _ _ _ Hact), (bind_ret _ _ _ _ _ Hstep).
  - reflexivity.
  - rewrite IH by (simpl in Hfuel; lia).
    cbn [map fold_left pre_obs taken gained].
    rewrite <- !app_assoc. reflexivity.
Qed.

(** C3. For a terminating episode and enough fuel for its steps, [rollout]
    returns the trajectory of that episode: the stored observations are the
    flattened pre-step observations of its transitions (the ones the actions
    were chosen from), the stored actions are the actions taken, both
    sequences have the length of the episode, and the reward is the running
    total of the per-step rewards. The environment is closed afterwards. *)
Theorem rollout_records_episode (w w' : world) (steps : list (Transition Obs))
  (fuel : nat) :
  terminating_episode w steps w' ->
  (length steps <= fuel)%nat ->
  exists (observations : list FlatObs) (acts : list Z) (episode_reward : Q),
    rollout fuel w = (closed w', Ret (observations, acts, episode_reward)) /\
    observations = map (fun t => reshape_flat (pre_obs t)) steps /\
    acts = map taken steps /\
    length observations = length acts /\
    length acts = length steps /\
    episode_reward = running_total (map gained steps).
Proof.
  intros (w0 & o0 & Hreset & Hep) Hfuel.
  do 3 eexists. split; [|split; [reflexivity|split; [reflexivity|]]].
  - unfold rollout, mbind, M_bind.
    rewrite (bind_ret _ _ _ _ _ Hreset).
    rewrite (bind_ret _ _ _ _ _
               (rollout_loop_episode _ _ _ _ Hep fuel [] [] 0 Hfuel)).
    reflexivity.
  - rewrite !length_map. repeat split; reflexivity.
Qed.

End RolloutFacts.

Lemma rollout_records_episode_witness :
  exists (observations : list (list Z)) (acts : list Z) (episode_reward : Q),
    Toy.toy_rollout 5 (Toy.world0 1) =
      (mkWorld 2%nat (w_brain (Toy.world0 1)) 3%nat
               [EvReset; EvStep 1; EvStep 2; EvClose],
       Ret (observations, acts, episode_reward)) /\
    observations = [[0%Z]; [1%Z]] /\
    acts = [1%Z; 2%Z] /\
    length observations = length acts /\
    length acts = 2%nat /\
    episode_reward = 0 + 1 + 2.
Proof.
  apply (rollout_records_episode (E := Toy.toy_env) (B := Toy.toy_backend)
           (Toy.world0 1)
           (mkWorld 2%nat (w_brain (Toy.world0 1)) 3%nat
                    [EvReset; EvStep 1; EvStep 2])
           [mkTransition 0%nat 1%Z 1 1%nat false;
            mkTransition 1%nat 2%Z 2 2%nat true] 5).
  - eexists _, _. split; [reflexivity|].
    eapply episode_more; [reflexivity|reflexivity|].
    eapply episode_last; reflexivity.
  - simpl. lia.
Defined.

(** ** What computations do to the world *)

Section WorldFacts.

Context {EnvId EnvSt Obs FlatObs Params Rng : Type}.
Context {E : Environment EnvId EnvSt Obs}.
Context {B : Backend Params Rng Obs FlatObs}.

#[local] Abbreviation world := (World EnvSt Params Rng FlatObs).
#[local] Abbreviation env_only :=
  (respects (only_env_calls : world -> world -> Prop)).

Lemma bind_inv {A C : Type} (m : M A) (k : A -> M C) (w w' : world)
  (r : outcome C) :
  bind m k w = (w', r) ->
  (exists w1 a, m w = (w1, Ret a) /\ k a w1 = (w', r)) \/
  (exists r1 : outcome A,
     m w = (w', r1) /\ (forall a, r1 <> Ret a) /\ (forall c, r <> Ret c)).
Proof.
  unfold bind. destruct (m w) as [w1 [a|e|]] eqn:Em; intros H.
  - left. now exists w1, a.
  - right. inversion H; subst. exists (Raise e). now repeat split.
  - right. inversion H; subst. exists OutOfFuel. now repeat split.
Qed.

Section Respect.

Variable R : world -> world -> Prop.
Hypothesis R_refl : forall w, R w w.
Hypothesis R_trans : forall w1 w2 w3, R w1 w2 -> R w2 w3 -> R w1 w3.

Lemma respects_ret {A : Type} (a : A) : respects R (ret a).
Proof. intros w w' r H. inversion H; subst. apply R_refl. Qed.

Lemma respects_lift {A : Type} (x : result A) : respects R (lift x).
Proof. intros w w' r H. inversion H; subst. apply R_refl. Qed.

Lemma respects_out_of_fuel {A : Type} :
  respects R (fun w : world => (w, @OutOfFuel A)).
Proof. intros w w' r H. inversion H; subst. apply R_refl. Qed.

Lemma respects_bind {A C : Type} (m : M A) (k : A -> M C) :
  respects R m ->
  (forall (a : A) (w w1 : world), m w = (w1, Ret a) -> respects R (k a)) ->
  respects R (bind m k).
Proof.
  intros Hm Hk w w' r H.
  apply bind_inv in H as [(w1 & a & Hm1 & Hk1)|(r1 & Hm1 & _)].
  - eapply R_trans; [eapply Hm; exact Hm1|].
    eapply Hk; [exact Hm1|exact Hk1].
  - eapply Hm. exact Hm1.
Qed.

End Respect.

Lemma only_env_calls_refl (w : world) : only_env_calls w w.
Proof.
  split; [reflexivity|]. exists []. split; [now rewrite app_nil_r|constructor].
Qed.

Lemma only_env_calls_trans (w1 w2 w3 : world) :
  only_env_calls w1 w2 -> only_env_calls w2 w3 -> only_env_calls w1 w3.
Proof.
  intros [Hb1 (l1 & Hl1 & Hf1)] [Hb2 (l2 & Hl2 & Hf2)].
  split; [congruence|]. exists (l1 ++ l2). split.
  - now rewrite Hl2, Hl1, app_assoc.
  - apply Forall_app. now split.
Qed.

Lemma keeps_labels_refl (n : nat) (w : world) : keeps_labels n w w.
Proof. split; [reflexivity|tauto]. Qed.

Lemma keeps_labels_trans (n : nat) (w1 w2 w3 : world) :
  keeps_labels n w1 w2 -> keeps_labels n w2 w3 -> keeps_labels n w1 w3.
Proof. intros [Hb1 Hl1] [Hb2 Hl2]. split; [congruence|tauto]. Qed.

Lemma only_env_calls_keeps_labels (n : nat) (w w' : world) :
  only_env_calls w w' -> keeps_labels n w w'.
Proof.
  intros [Hb (l & Hl & Hf)]. split; [now rewrite Hb|].
  intros Hw. rewrite Hl. apply Forall_app. split; [assumption|].
  eapply Forall_impl; [exact Hf|]. intros [] H; simpl in *; tauto.
Qed.

Ltac env_bind :=
  apply (respects_bind only_env_calls only_env_calls_trans).
Ltac env_ret :=
  apply (respects_ret only_env_calls only_env_calls_refl).

Lemma emit_env (ev : Event FlatObs) (e : EnvSt) (g : Rng) (w : world) :
  env_event ev ->
  only_env_calls w (emit ev (mkWorld e (w_brain w) g (w_log w))).
Proof.
  intros Hev. split; [reflexivity|]. exists [ev]. split; [reflexivity|].
  now constructor.
Qed.

Lemma reset_env : env_only reset.
Proof.
  intros w w' r. unfold reset. destruct (env_reset (w_env w)) as [e o].
  intros H. inversion H; subst. now apply emit_env.
Qed.

Lemma step_env (a : Z) : env_only (step a).
Proof.
  intros w w' r. unfold step. destruct (env_step (w_env w) a) as [e x].
  intros H. inversion H; subst. now apply emit_env.
Qed.

Lemma close_env : env_only close.
Proof.
  intros w w' r. unfold close. intros H. inversion H; subst.
  now apply emit_env.
Qed.

Lemma get_action_env (o : Obs) : env_only (get_action o).
Proof.
  intros w w' r. unfold get_action, policy_mlp.
  destruct (categorical_of_log _ _) as [g a].
  intros H. inversion H; subst. split; [reflexivity|].
  exists []. split; [simpl; now rewrite app_nil_r|constructor].
Qed.

Lemma rollout_loop_env (fuel : nat) (o : Obs) (observations : list FlatObs)
  (acts : list Z) (total : Q) :
  env_only (rollout_loop fuel o observations acts total).
Proof.
  revert o observations acts total.
  induction fuel as [|fuel IH]; intros o observations acts total.
  - apply (respects_out_of_fuel only_env_calls only_env_calls_refl).
  - cbn [rollout_loop]. unfold mbind, M_bind.
    env_bind; [apply get_action_env|].
    intros a _ _ _.
    env_bind; [apply step_env|].
    intros [[o' r] done] _ _ _. destruct done.
    + env_ret.
    + apply IH.
Qed.

Lemma rollout_env (fuel : nat) : env_only (rollout fuel).
Proof.
  unfold rollout, mbind, M_bind.
  env_bind; [apply reset_env|].
  intros o _ _ _.
  env_bind; [apply rollout_loop_env|].
  intros xp _ _ _.
  env_bind; [apply close_env|].
  intros _ _ _ _. env_ret.
Qed.

Lemma rollouts_env (fuel k : nat) : env_only (rollouts fuel k).
Proof.
  induction k as [|k IH]; cbn [rollouts].
  - env_ret.
  - unfold mbind, M_bind.
    env_bind; [apply rollout_env|].
    intros [[observations acts] total] _ _ _.
    env_bind; [apply IH|].
    intros rest _ _ _. env_ret.
Qed.

(** A rollout starts by resetting the environment, whatever happens next. *)
Lemma rollout_resets (fuel : nat) (w w' : world)
  (r : outcome (list FlatObs * list Z * Q)) :
  rollout fuel w = (w', r) -> In EvReset (w_log w').
Proof.
  unfold rollout, mbind, M_bind. intros H.
  apply bind_inv in H as [(w1 & o & Hreset & Hk)|(r1 & Hreset & Hr1)].
  - assert (In EvReset (w_log w1)) as Hin.
    { unfold reset in Hreset. destruct (env_reset (w_env w)) as [e o'].
      inversion Hreset; subst. simpl. apply in_or_app. right. now left. }
    assert (only_env_calls w1 w') as [_ (l & Hl & _)].
    { revert Hk. env_bind; [apply rollout_loop_env|].
      intros xp _ _ _.
      env_bind; [apply close_env|].
      intros _ _ _ _. env_ret. }
    rewrite Hl. apply in_or_app. now left.
  - exfalso. unfold reset in Hreset. destruct (env_reset (w_env w)) as [e o'].
    inversion Hreset; subst. eapply (proj1 Hr1). reflexivity.
Qed.

Lemma rollouts_reset (fuel k : nat) (w w' : world)
  (r : outcome (list (Trajectory FlatObs))) :
  rollouts fuel (S k) w = (w', r) -> In EvReset (w_log w').
Proof.
  cbn [rollouts]. unfold mbind, M_bind. intros H.
  apply bind_inv in H as [(w1 & xp & Hroll & Hk)|(r1 & Hroll & _)].
  - apply rollout_resets in Hroll. destruct xp as [[observations acts] total].
    assert (only_env_calls w1 w') as [_ (l & Hl & _)].
    { revert Hk. env_bind; [apply rollouts_env|].
      intros rest _ _ _. env_ret. }
    rewrite Hl. apply in_or_app. now left.
  - eapply rollout_resets. exact Hroll.
Qed.

Lemma rollouts_length (fuel k : nat) (w w' : world)
  (ts : list (Trajectory FlatObs)) :
  rollouts fuel k w = (w', Ret ts) -> length ts = k.
Proof.
  revert w w' ts. induction k as [|k IH]; intros w w' ts; cbn [rollouts].
  - intros H. inversion H. reflexivity.
  - unfold mbind, M_bind. intros H.
    apply bind_inv in H as [(w1 & [[o a] t] & _ & Hk)|(r1 & H)].
    + apply bind_inv in Hk as [(w2 & rest & Hrest & Hret)|(r1 & Hrest & Hr1)].
      * inversion Hret; subst. simpl. f_equal. eapply IH. exact Hrest.
      * destruct Hr1 as [_ Hr1]. exfalso. eapply Hr1. reflexivity.
    + destruct H as (_ & _ & H). exfalso. eapply H. reflexivity.
Qed.

Lemma respects_weaken (R R' : world -> world -> Prop) {A : Type} (m : M A) :
  (forall w w', R w w' -> R' w w') -> respects R m -> respects R' m.
Proof. intros HR Hm w w' r H. eapply HR, Hm. exact H. Qed.

(** ** Labels handed to [fit] *)

Ltac lab_bind n :=
  apply (respects_bind (keeps_labels n) (keeps_labels_trans n)).
Ltac lab_ret n :=
  apply (respects_ret (keeps_labels n) (keeps_labels_refl n)).

Lemma learn_labels (n : nat) (batch_obs : list FlatObs)
  (batch_labels : list (list Z)) :
  Forall (fun d => length d = n) batch_labels ->
  respects (keeps_labels n : world -> world -> Prop)
           (learn batch_obs batch_labels).
Proof.
  intros Hl w w' r H. unfold learn in H. inversion H; subst.
  split; [reflexivity|]. intros Hw. simpl.
  apply Forall_app. split; [assumption|]. now repeat constructor.
Qed.

Lemma emit_m_labels (n : nat) (ev : Event FlatObs) :
  labels_of_length n ev ->
  respects (keeps_labels n : world -> world -> Prop) (emit_m ev).
Proof.
  intros Hev w w' r H. unfold emit_m in H. inversion H; subst.
  split; [reflexivity|]. intros Hw. simpl.
  apply Forall_app. split; [assumption|]. now repeat constructor.
Qed.

Lemma lift_ret_inv {A : Type} (x : result A) (w w' : world) (a : A) :
  lift x w = (w', Ret a) -> x = Ok a /\ w' = w.
Proof.
  unfold lift. destruct x; intros H; inversion H; subst; now split.
Qed.

Lemma train_epoch_labels (fuel : nat) (num_trajectory_rollouts : Z) (p : Q)
  (i : nat) (mean_rewards thresholds : list Q) :
  respects (keeps_labels (Z.to_nat default_action_dim)
              : world -> world -> Prop)
    (train_epoch fuel num_trajectory_rollouts p i mean_rewards thresholds).
Proof.
  set (n := Z.to_nat default_action_dim).
  unfold train_epoch, mbind, M_bind.
  lab_bind n.
  { eapply respects_weaken; [apply only_env_calls_keeps_labels|].
    apply rollouts_env. }
  intros trajectories _ _ _.
  lab_bind n; [apply respects_lift, keeps_labels_refl|].
  intros [[? ?] batch_rewards] _ _ _.
  lab_bind n; [apply respects_lift, keeps_labels_refl|].
  intros [[elite_obs elite_actions] elite_threshold] _ _ _.
  lab_bind n; [apply respects_lift, keeps_labels_refl|].
  intros labels w w1 Hlabels. apply lift_ret_inv in Hlabels as [Hlabels _].
  lab_bind n; [apply learn_labels; now apply encode_actions_lengths in Hlabels|].
  intros _ _ _ _.
  lab_bind n; [now apply emit_m_labels|].
  intros _ _ _ _. lab_ret n.
Qed.

Lemma train_epochs_labels (fuel : nat) (num_trajectory_rollouts : Z) (p : Q)
  (remaining i : nat) (mean_rewards thresholds : list Q) :
  respects (keeps_labels (Z.to_nat default_action_dim)
              : world -> world -> Prop)
    (train_epochs fuel num_trajectory_rollouts p remaining i
                  mean_rewards thresholds).
Proof.
  set (n := Z.to_nat default_action_dim).
  revert i mean_rewards thresholds.
  induction remaining as [|remaining IH]; intros i mean_rewards thresholds;
    cbn [train_epochs].
  - lab_ret n.
  - unfold mbind, M_bind. lab_bind n; [apply train_epoch_labels|].
    intros [m t] _ _ _. apply IH.
Qed.

Lemma train_body_labels (fuel : nat) (num_trajectory_rollouts : Z) (p : Q)
  (num_epochs : Z) :
  respects (keeps_labels (Z.to_nat default_action_dim)
              : world -> world -> Prop)
    (train_body fuel num_trajectory_rollouts p num_epochs).
Proof.
  set (n := Z.to_nat default_action_dim).
  unfold train_body, mbind, M_bind.
  lab_bind n; [apply train_epochs_labels|].
  intros [m t] _ _ _.
  lab_bind n; [now apply emit_m_labels|].
  intros _ _ _ _.
  lab_bind n; [now apply emit_m_labels|].
  intros _ _ _ _. lab_ret n.
Qed.

End WorldFacts.

(** ** The training loop *)

Section TrainClaims.

Context {EnvId EnvSt Obs FlatObs Params Rng : Type}.
Context {E : Environment EnvId EnvSt Obs}.
Context {B : Backend Params Rng Obs FlatObs}.

#[local] Abbreviation world := (World EnvSt Params Rng FlatObs).

#[local] Abbreviation start := (initial_world (E := E) (B := B)).

Lemma train_no_epochs (fuel : nat) (seed : Rng) (env_id : EnvId)
  (num_trajectory_rollouts : Z) (p : Q) (num_epochs : Z) :
  (num_epochs <= 0)%Z ->
  train fuel seed env_id num_trajectory_rollouts p num_epochs =
    (mkWorld (w_env (start seed env_id)) (w_brain (start seed env_id)) seed
             [EvPlot []; EvPlot []],
     Ret None).
Proof.
  intros H. unfold train, train_body.
  replace (Z.to_nat num_epochs) with 0%nat by lia. reflexivity.
Qed.

(** C7, as the code has it. With [num_epochs = 0], [train] resets and steps
    no environment and calls no [fit]; the history it accumulated is empty,
    and it is plotted ([plt.plot] twice, on empty series), not returned:
    the call evaluates to [None]. *)
Theorem train_zero_epochs (fuel : nat) (seed : Rng) (env_id : EnvId)
  (num_trajectory_rollouts : Z) (p : Q) :
  let run := train fuel seed env_id num_trajectory_rollouts p 0 in
  w_log (fst run) = [EvPlot []; EvPlot []] /\
  ~ In EvReset (w_log (fst run)) /\
  (forall a, ~ In (EvStep a) (w_log (fst run))) /\
  (forall batch_obs batch_labels,
     ~ In (EvFit batch_obs batch_labels) (w_log (fst run))) /\
  w_brain (fst run) = w_brain (start seed env_id) /\
  snd run = Ret None.
Proof.
  intros run. subst run. rewrite train_no_epochs by lia. cbn [fst snd w_log].
  split; [reflexivity|].
  split; [intros [H|[H|[]]]; discriminate|].
  split; [intros a [H|[H|[]]]; discriminate|].
  split; [intros o l [H|[H|[]]]; discriminate|].
  split; reflexivity.
Qed.

(** C8, as the code has it. [train] checks nothing before its loop.
    - The agent's output width is read from the environment, so the two
      cannot disagree.
    - A non-positive [num_epochs] is no error: the loop body never runs and
      the call returns.
    - With a positive [num_epochs], a non-positive number of rollouts raises
      [ValueError] (the unpacking of an empty zip) with no environment call
      made.
    - With positive counts and a percentile outside [0, 100], once the
      rollouts of the first epoch have returned, the percentile routine
      raises [ValueError]: the environment was reset by then, all the
      rollouts have run, and no [fit] was called. *)
Theorem train_checks_nothing_up_front (fuel : nat) (seed : Rng)
  (env_id : EnvId) (num_trajectory_rollouts : Z) (p : Q) (num_epochs : Z) :
  let run := train fuel seed env_id num_trajectory_rollouts p num_epochs in
  logits_units (w_brain (start seed env_id)) =
    action_space_n (w_env (start seed env_id)) /\
  ((num_epochs <= 0)%Z ->
     snd run = Ret None /\ w_log (fst run) = [EvPlot []; EvPlot []]) /\
  ((0 < num_epochs)%Z -> (num_trajectory_rollouts <= 0)%Z ->
     run = (start seed env_id, Raise ValueError)) /\
  ((0 < num_epochs)%Z -> (0 < num_trajectory_rollouts)%Z ->
   p < 0 \/ 100 < p ->
   forall (w1 : world) (ts : list (Trajectory FlatObs)),
     rollouts fuel (Z.to_nat num_trajectory_rollouts) (start seed env_id) =
       (w1, Ret ts) ->
     run = (w1, Raise ValueError) /\
     In EvReset (w_log w1) /\
     length ts = Z.to_nat num_trajectory_rollouts /\
     Forall env_event (w_log w1)).
Proof.
  intros run. split; [reflexivity|]. split; [|split].
  - intros H. subst run. rewrite train_no_epochs by assumption.
    split; reflexivity.
  - intros He Hn. subst run. unfold train, train_body.
    destruct (Z.to_nat num_epochs) as [|k] eqn:Ek; [lia|].
    cbn [train_epochs]. unfold train_epoch.
    replace (Z.to_nat num_trajectory_rollouts) with 0%nat by lia.
    reflexivity.
  - intros He Hn Hp w1 ts Hroll.
    pose proof (rollouts_length _ _ _ _ _ Hroll) as Hlen.
    assert (In EvReset (w_log w1)) as Hreset.
    { destruct (Z.to_nat num_trajectory_rollouts) as [|k] eqn:Ek; [lia|].
      eapply rollouts_reset. exact Hroll. }
    assert (Forall env_event (w_log w1)) as Hlog.
    { destruct (rollouts_env _ _ _ _ _ Hroll) as [_ (l & Hl & Hf)].
      rewrite Hl. exact Hf. }
    split; [|now repeat split].
    assert (train_epoch fuel num_trajectory_rollouts p 0 [] []
              (start seed env_id) = (w1, Raise ValueError)) as Hepoch.
    { unfold train_epoch, mbind, M_bind.
      rewrite (bind_ret _ _ _ _ _ Hroll).
      destruct ts as [|t ts]; [simpl in Hlen; lia|].
      unfold bind, lift. cbn [unzip_trajectories].
      now rewrite gather_elite_xp_invalid by assumption. }
    subst run. unfold train, train_body, mbind, M_bind.
    destruct (Z.to_nat num_epochs) as [|k] eqn:Ek; [lia|].
    cbn [train_epochs]. unfold mbind, M_bind.
    apply bind_raise, bind_raise. exact Hepoch.
Qed.

End TrainClaims.

(** ** Concrete runs *)

Lemma gather_elite_xp_percentile_filter_witness :
  [mkTrajectory [10%Z] [0%Z] 1; mkTrajectory [20%Z] [1%Z] 5;
   mkTrajectory [30%Z; 31%Z] [2%Z; 3%Z] 9] <> [] /\
  0 <= 70 <= 100 /\
  exists threshold,
    gather_elite_xp
      [mkTrajectory [10%Z] [0%Z] 1; mkTrajectory [20%Z] [1%Z] 5;
       mkTrajectory [30%Z; 31%Z] [2%Z; 3%Z] 9] 70 =
      Ok ([30%Z; 31%Z], [2%Z; 3%Z], threshold).
Proof.
  split; [discriminate|]. split; [split; vm_compute; discriminate|].
  destruct (gather_elite_xp_percentile_filter
              [mkTrajectory [10%Z] [0%Z] 1; mkTrajectory [20%Z] [1%Z] 5;
               mkTrajectory [30%Z; 31%Z] [2%Z; 3%Z] 9] 70)
    as (threshold & Hrun & _).
  - discriminate.
  - split; vm_compute; discriminate.
  - exists threshold. rewrite Hrun.
    assert (threshold = 660 # 100) as ->.
    { vm_compute in Hrun. now inversion Hrun. }
    reflexivity.
Defined.

Lemma gather_elite_xp_nonempty_witness :
  [mkTrajectory [10%Z] [0%Z] 4; mkTrajectory [20%Z] [1%Z] 4] <> [] /\
  0 <= 50 <= 100 /\
  exists threshold,
    threshold == 4 /\
    kept threshold
      [mkTrajectory [10%Z] [0%Z] 4; mkTrajectory [20%Z] [1%Z] 4] =
      [mkTrajectory [10%Z] [0%Z] 4; mkTrajectory [20%Z] [1%Z] 4].
Proof.
  split; [discriminate|]. split; [split; vm_compute; discriminate|].
  destruct (gather_elite_xp_nonempty
              [mkTrajectory [10%Z] [0%Z] 4; mkTrajectory [20%Z] [1%Z] 4] 50)
    as (threshold & _ & _ & Hsame).
  - discriminate.
  - split; vm_compute; discriminate.
  - exists threshold. apply (Hsame 4).
    intros t [<-|[<-|[]]]; reflexivity.
Defined.

Lemma gather_elite_xp_concat_order_witness :
  exists threshold,
    np_percentile [1; 2] 0 = Ok threshold /\
    threshold <= 1 /\ threshold <= 2 /\
    gather_elite_xp
      [mkTrajectory [10%Z; 11%Z] [0%Z; 1%Z] 1;
       mkTrajectory [20%Z] [2%Z] 2] 0 =
      Ok ([10%Z; 11%Z; 20%Z], [0%Z; 1%Z; 2%Z], threshold).
Proof.
  eexists. split; [vm_compute; reflexivity|].
  split; [vm_compute; discriminate|]. split; [vm_compute; discriminate|].
  apply (gather_elite_xp_concat_order
           (mkTrajectory [10%Z; 11%Z] [0%Z; 1%Z] 1)
           (mkTrajectory [20%Z] [2%Z] 2) 0).
  - vm_compute. reflexivity.
  - vm_compute. discriminate.
  - vm_compute. discriminate.
Defined.

(** With no epoch to run, the toy run returns [None], which is not an empty
    history. *)
Lemma train_zero_epochs_returns_none :
  snd (Toy.toy_train 3 70 0) = Ret None /\
  snd (Toy.toy_train 3 70 0) <> Ret (Some ([], [])).
Proof. split; [reflexivity|discriminate]. Qed.

(** An invalid configuration that is not reported before the rollouts:
    with percentile 150 the error comes after the environment was reset and
    stepped; with zero epochs no error comes at all. *)
Lemma train_invalid_configuration_not_reported_first :
  (100 < 150 /\
   snd (Toy.toy_train 3 150 1) = Raise ValueError /\
   In EvReset (w_log (fst (Toy.toy_train 3 150 1)))) /\
  ((0 <= 0)%Z /\
   snd (Toy.toy_train 3 70 0) = Ret None).
Proof.
  split; split.
  - reflexivity.
  - split; [vm_compute; reflexivity|]. vm_compute. now left.
  - lia.
  - reflexivity.
Qed.

Lemma train_checks_nothing_up_front_witness :
  exists (w1 : World nat unit nat (list Z)) (ts : list (Trajectory (list Z))),
    rollouts (E := Toy.toy_env) (B := Toy.toy_backend) 10 3 (Toy.world0 0) =
      (w1, Ret ts) /\
    Toy.toy_train 3 150 1 = (w1, Raise ValueError) /\
    In EvReset (w_log w1) /\
    length ts = 3%nat /\
    Forall env_event (w_log w1).
Proof.
  eexists _, _. split; [vm_compute; reflexivity|].
  apply (proj2 (proj2 (proj2
           (train_checks_nothing_up_front (E := Toy.toy_env)
              (B := Toy.toy_backend) 10 0%nat tt 3 150 1)))).
  - lia.
  - lia.
  - right. reflexivity.
  - vm_compute. reflexivity.
Defined.


(** * Further properties of the code *)

(** ** Elite selection: errors, alignment, extreme percentiles *)

Section EliteMore.

Context {FlatObs : Type}.
Implicit Types (trajectories : list (Trajectory FlatObs)) (threshold : Q).

Lemma gather_elite_xp_ok_inv trajectories (p : Q) (o : list FlatObs)
  (a : list Z) threshold :
  gather_elite_xp trajectories p = Ok (o, a, threshold) ->
  trajectories <> [] /\
  np_percentile (map reward trajectories) p = Ok threshold.
Proof.
  intros H. destruct trajectories as [|t ts]; [discriminate|].
  split; [discriminate|].
  destruct (np_percentile (map reward (t :: ts)) p) as [th|e] eqn:Ep.
  - rewrite (gather_elite_xp_kept (t :: ts) p th) in H
      by (discriminate || exact Ep).
    now inversion H.
  - unfold gather_elite_xp in H.
    cbn [unzip_trajectories mbind result_bind rbind] in H.
    rewrite Ep in H. discriminate.
Qed.

Lemma gather_elite_xp_valid trajectories (p : Q) :
  trajectories <> [] -> 0 <= p <= 100 ->
  exists o a threshold, gather_elite_xp trajectories p = Ok (o, a, threshold).
Proof.
  intros Hne Hp.
  assert (map reward trajectories <> []) as Hr
    by (destruct trajectories; [contradiction|discriminate]).
  destruct (np_percentile_linear _ _ Hr Hp) as (threshold & Hth & _).
  do 3 eexists. apply gather_elite_xp_kept; [exact Hne|exact Hth].
Qed.

(** On an empty list of trajectories, and on a percentile outside
    [0, 100], [gather_elite_xp] raises [ValueError]: the unpacking of the
    empty zip fails, or the percentile routine refuses the percentile. And
    whatever the input, it does not raise [IndexError]: the positions it
    selects all exist in the tuples it indexes. *)
Theorem gather_elite_xp_early_errors trajectories (p : Q) :
  (trajectories = [] \/ p < 0 \/ 100 < p ->
   gather_elite_xp trajectories p = Err ValueError) /\
  gather_elite_xp trajectories p <> Err IndexError.
Proof.
  destruct trajectories as [|t ts].
  { split; [reflexivity|discriminate]. }
  destruct (Qlt_le_dec p 0) as [Hneg|Hnonneg].
  { rewrite gather_elite_xp_invalid by now left.
    split; [reflexivity|discriminate]. }
  destruct (Qlt_le_dec 100 p) as [Hbig|Hsmall].
  { rewrite gather_elite_xp_invalid by now right.
    split; [reflexivity|discriminate]. }
  destruct (gather_elite_xp_valid (t :: ts) p) as (o & a & th & Hok);
    [discriminate|now split|].
  rewrite Hok. split; [|discriminate].
  intros [H|[H|H]]; [discriminate|lra|lra].
Qed.

Lemma combine_app_aligned {A C : Type} (l1 l2 : list A) (r1 r2 : list C) :
  length l1 = length r1 ->
  combine (l1 ++ l2) (r1 ++ r2) = combine l1 r1 ++ combine l2 r2.
Proof.
  revert r1. induction l1 as [|x l1 IH]; intros [|y r1] H;
    try discriminate; [reflexivity|].
  simpl. f_equal. apply IH. now inversion H.
Qed.

Lemma concat_aligned (ts : list (Trajectory FlatObs)) :
  Forall (fun t => length (obs t) = length (actions t)) ts ->
  length (concat (map obs ts)) = length (concat (map actions ts)) /\
  combine (concat (map obs ts)) (concat (map actions ts)) =
    concat (map (fun t => combine (obs t) (actions t)) ts).
Proof.
  induction 1 as [|t ts Ht Hts [IHlen IHzip]]; [now split|].
  simpl. split.
  - rewrite !length_app. congruence.
  - rewrite combine_app_aligned by assumption. now rewrite IHzip.
Qed.

Lemma kept_Forall (P : Trajectory FlatObs -> Prop) threshold trajectories :
  Forall P trajectories -> Forall P (kept threshold trajectories).
Proof.
  intros H. apply List.Forall_forall. intros t Ht.
  apply kept_In in Ht as [Ht _].
  rewrite List.Forall_forall in H. now apply H.
Qed.

(** Whatever [gather_elite_xp] returns is the concatenation, in input order,
    of the kept trajectories' observations and of their actions; when every
    trajectory pairs each observation with an action, so does the batch:
    both have the same length and position [i] of the one belongs to
    position [i] of the other. *)
Theorem gather_elite_xp_aligned trajectories (p : Q) (o : list FlatObs)
  (a : list Z) threshold :
  gather_elite_xp trajectories p = Ok (o, a, threshold) ->
  o = concat (map obs (kept threshold trajectories)) /\
  a = concat (map actions (kept threshold trajectories)) /\
  (Forall (fun t => length (obs t) = length (actions t)) trajectories ->
   length o = length a /\
   combine o a =
     concat (map (fun t => combine (obs t) (actions t))
                 (kept threshold trajectories))).
Proof.
  intros H. destruct (gather_elite_xp_ok_inv _ _ _ _ _ H) as [Hne Hp].
  rewrite (gather_elite_xp_kept _ _ _ Hne Hp) in H. inversion H; subst.
  split; [reflexivity|]. split; [reflexivity|].
  intros Hal. apply concat_aligned. now apply kept_Forall.
Qed.

Lemma elite_indices_from (rewards : list Q) threshold (start : nat) :
  let indices :=
    map fst (List.filter (fun iv => Qle_bool threshold (snd iv))
                         (enumerate_from start rewards)) in
  StronglySorted lt indices /\
  Forall (fun i => (start <= i < start + length rewards)%nat) indices.
Proof.
  revert start. induction rewards as [|r rewards IH]; intros start; simpl.
  - split; constructor.
  - destruct (IH (S start)) as [Hs Hf].
    assert (Forall (fun i => (start <= i < start + S (length rewards))%nat)
              (map fst (List.filter (fun iv => Qle_bool threshold (snd iv))
                          (enumerate_from (S start) rewards)))) as Hf'.
    { eapply Forall_impl; [exact Hf|]. simpl. intros i Hi. lia. }
    destruct (Qle_bool threshold r); simpl.
    + split.
      * constructor; [assumption|].
        eapply Forall_impl; [exact Hf|]. simpl. intros i Hi. lia.
      * constructor; [lia|assumption].
    + now split.
Qed.

(** The selected positions come out in strictly increasing order and all
    lie inside the reward sequence. *)
Theorem elite_indices_increasing (rewards : list Q) threshold :
  StronglySorted lt (elite_indices rewards threshold) /\
  Forall (fun i => (i < length rewards)%nat) (elite_indices rewards threshold).
Proof.
  destruct (elite_indices_from rewards threshold 0) as [Hs Hf].
  split; [exact Hs|].
  eapply Forall_impl; [exact Hf|]. simpl. intros i Hi. lia.
Qed.

End EliteMore.

Lemma gather_elite_xp_early_errors_witness :
  gather_elite_xp [mkTrajectory [10%Z] [0%Z] 1] 150 = Err ValueError /\
  gather_elite_xp (@nil (Trajectory Z)) 50 = Err ValueError.
Proof.
  split.
  - apply (proj1 (gather_elite_xp_early_errors
                    [mkTrajectory [10%Z] [0%Z] 1] 150)).
    right. right. reflexivity.
  - apply (proj1 (gather_elite_xp_early_errors (@nil (Trajectory Z)) 50)).
    now left.
Defined.

Lemma gather_elite_xp_aligned_witness :
  exists threshold,
    gather_elite_xp
      [mkTrajectory [10%Z; 11%Z] [0%Z; 1%Z] 1;
       mkTrajectory [20%Z] [2%Z] 2] 50 =
      Ok ([20%Z], [2%Z], threshold) /\
    combine [20%Z] [2%Z] = [(20%Z, 2%Z)].
Proof.
  eexists. split; [vm_compute; reflexivity|].
  destruct (gather_elite_xp_aligned
              [mkTrajectory [10%Z; 11%Z] [0%Z; 1%Z] 1;
               mkTrajectory [20%Z] [2%Z] 2] 50 [20%Z] [2%Z] (150 # 100))
    as (_ & _ & Hal).
  - vm_compute. reflexivity.
  - destruct Hal as [_ Hzip]; [repeat constructor|]. exact Hzip.
Defined.

(** ** The extreme percentiles *)

Lemma sorted_nth_le (l : list Q) :
  Sorted Qle l ->
  forall i j : nat, (i <= j < length l)%nat -> nth_Q l i <= nth_Q l j.
Proof.
  intros Hs. apply Sorted_StronglySorted in Hs; [|exact Qle_trans].
  induction Hs as [|x l Hs IH Hall]; intros i j Hij; [simpl in Hij; lia|].
  destruct i as [|i], j as [|j]; unfold nth_Q in *; simpl in *.
  - apply Qle_refl.
  - rewrite List.Forall_forall in Hall. apply Hall, nth_In. lia.
  - lia.
  - apply IH. lia.
Qed.

Lemma sort_asc_nth_of (a : list Q) (x : Q) :
  In x a -> exists i : nat, (i < length a)%nat /\ nth_Q (sort_asc a) i = x.
Proof.
  intros Hx. apply (Permutation_in _ (Permutation_sym (sort_asc_perm a))) in Hx.
  destruct (In_nth _ _ 0 Hx) as (i & Hi & Hn).
  exists i. rewrite sort_asc_length in Hi. now split.
Qed.

(** At percentile 0 the routine returns the smallest element. *)
Lemma np_percentile_zero (a : list Q) (p : Q) :
  a <> [] -> p == 0 ->
  exists threshold,
    np_percentile a p = Ok threshold /\
    threshold == nth_Q (sort_asc a) 0.
Proof.
  intros Ha Hp.
  assert (0 <= p <= 100) as Hrange by (rewrite Hp; split; discriminate).
  rewrite np_percentile_ok by assumption.
  eexists. split; [reflexivity|].
  set (h := inject_Z _ * _).
  assert (h == 0) as Hh by (subst h; rewrite Hp; field).
  assert (Qfloor h = 0%Z) as Hk by (rewrite Hh; reflexivity).
  rewrite Hk. unfold lerp. change (Z.to_nat 0) with 0%nat. rewrite Hh.
  change (inject_Z (Z.of_nat 0)) with 0. ring.
Qed.

(** At percentile 100 the routine returns the largest element. *)
Lemma np_percentile_hundred (a : list Q) (p : Q) :
  a <> [] -> p == 100 ->
  exists threshold,
    np_percentile a p = Ok threshold /\
    threshold == nth_Q (sort_asc a) (length a - 1).
Proof.
  intros Ha Hp.
  assert (0 <= p <= 100) as Hrange by (rewrite Hp; split; discriminate).
  rewrite np_percentile_ok by assumption.
  eexists. split; [reflexivity|].
  set (h := inject_Z _ * _).
  assert (h == inject_Z (Z.of_nat (length a - 1))) as Hh
    by (subst h; rewrite Hp; field).
  assert (Qfloor h = Z.of_nat (length a - 1)) as Hk
    by (rewrite Hh; apply Qfloor_Z).
  rewrite Hk, Nat2Z.id.
  replace (Nat.min (length a - 1 + 1) (length a - 1)) with (length a - 1)%nat
    by lia.
  unfold lerp. ring.
Qed.

Section ExtremePercentiles.

Context {FlatObs : Type}.
Implicit Types (trajectories : list (Trajectory FlatObs)) (threshold : Q).

Lemma rewards_nonempty trajectories :
  trajectories <> [] ->
  map reward trajectories <> [] /\
  (0 < length (map reward trajectories))%nat.
Proof.
  destruct trajectories; [contradiction|]. intros _.
  split; [discriminate|simpl; lia].
Qed.

(** With [elitism_criterion] 0 the threshold is the smallest reward of the
    population, so every trajectory is kept and the batches are those of the
    whole population. *)
Theorem gather_elite_xp_percentile_zero trajectories (p : Q) :
  trajectories <> [] -> p == 0 ->
  exists threshold,
    gather_elite_xp trajectories p =
      Ok (concat (map obs trajectories), concat (map actions trajectories),
          threshold) /\
    (forall t, In t trajectories -> threshold <= reward t) /\
    (exists t, In t trajectories /\ threshold == reward t).
Proof.
  intros Hne Hp. destruct (rewards_nonempty _ Hne) as [Hr Hlen].
  destruct (np_percentile_zero _ _ Hr Hp) as (threshold & Hth & Hmin).
  assert (forall t, In t trajectories -> threshold <= reward t) as Hall.
  { intros t Ht.
    destruct (sort_asc_nth_of (map reward trajectories) (reward t))
      as (i & Hi & Hn); [now apply in_map|].
    rewrite Hmin, <- Hn.
    apply sorted_nth_le; [apply sort_asc_sorted|].
    rewrite sort_asc_length. lia. }
  exists threshold. split; [|split; [exact Hall|]].
  - rewrite (gather_elite_xp_kept _ _ _ Hne Hth).
    now rewrite kept_all.
  - pose proof (nth_Q_sort_In (map reward trajectories) 0 Hlen) as Hin.
    apply in_map_iff in Hin as (t & Ht & Hin).
    exists t. split; [assumption|]. now rewrite Hmin, Ht.
Qed.

(** With [elitism_criterion] 100 the threshold is the largest reward of the
    population: the trajectories kept are exactly those that attain it. *)
Theorem gather_elite_xp_percentile_hundred trajectories (p : Q) :
  trajectories <> [] -> p == 100 ->
  exists threshold,
    gather_elite_xp trajectories p =
      Ok (concat (map obs (kept threshold trajectories)),
          concat (map actions (kept threshold trajectories)),
          threshold) /\
    (forall t, In t trajectories -> reward t <= threshold) /\
    (exists t, In t trajectories /\ threshold == reward t) /\
    (forall t, In t (kept threshold trajectories) <->
               In t trajectories /\ reward t == threshold).
Proof.
  intros Hne Hp. destruct (rewards_nonempty _ Hne) as [Hr Hlen].
  destruct (np_percentile_hundred _ _ Hr Hp) as (threshold & Hth & Hmax).
  assert (forall t, In t trajectories -> reward t <= threshold) as Hall.
  { intros t Ht.
    destruct (sort_asc_nth_of (map reward trajectories) (reward t))
      as (i & Hi & Hn); [now apply in_map|].
    rewrite Hmax, <- Hn.
    apply sorted_nth_le; [apply sort_asc_sorted|].
    rewrite sort_asc_length. lia. }
  exists threshold.
  split; [now apply gather_elite_xp_kept|]. split; [exact Hall|]. split.
  - assert (length (map reward trajectories) - 1
            < length (map reward trajectories))%nat as Hlast by lia.
    pose proof (nth_Q_sort_In (map reward trajectories) _ Hlast) as Hin.
    apply in_map_iff in Hin as (t & Ht & Hin).
    exists t. split; [assumption|]. now rewrite Hmax, Ht.
  - intros t. rewrite kept_In. split.
    + intros [Ht Hle]. split; [assumption|].
      apply Qle_antisym; [now apply Hall|assumption].
    + intros [Ht Heq]. split; [assumption|]. rewrite Heq. apply Qle_refl.
Qed.

End ExtremePercentiles.

Lemma gather_elite_xp_percentile_zero_witness :
  exists threshold,
    gather_elite_xp
      [mkTrajectory [10%Z; 11%Z] [0%Z; 1%Z] 7;
       mkTrajectory [20%Z] [2%Z] 3] 0 =
      Ok ([10%Z; 11%Z; 20%Z], [0%Z; 1%Z; 2%Z], threshold) /\
    threshold == 3.
Proof.
  destruct (gather_elite_xp_percentile_zero
              [mkTrajectory [10%Z; 11%Z] [0%Z; 1%Z] 7;
               mkTrajectory [20%Z] [2%Z] 3] 0)
    as (threshold & Hrun & _ & _).
  - discriminate.
  - reflexivity.
  - exists threshold. split; [exact Hrun|].
    vm_compute in Hrun. inversion Hrun. reflexivity.
Defined.

Lemma gather_elite_xp_percentile_hundred_witness :
  exists threshold,
    threshold == 7 /\
    kept threshold
      [mkTrajectory [10%Z; 11%Z] [0%Z; 1%Z] 7;
       mkTrajectory [20%Z] [2%Z] 3] =
      [mkTrajectory [10%Z; 11%Z] [0%Z; 1%Z] 7].
Proof.
  destruct (gather_elite_xp_percentile_hundred
              [mkTrajectory [10%Z; 11%Z] [0%Z; 1%Z] 7;
               mkTrajectory [20%Z] [2%Z] 3] 100)
    as (threshold & Hrun & _ & _ & _).
  - discriminate.
  - reflexivity.
  - exists threshold.
    assert (threshold = 700 # 100) as ->.
    { vm_compute in Hrun. now inversion Hrun. }
    split; reflexivity.
Defined.

(** ** Labels: shape, errors, whole batches *)

Lemma sum_Z_zeros (n : nat) : sum_Z (replicate n 0%Z) = 0%Z.
Proof. induction n as [|n IH]; [reflexivity|]. simpl. exact IH. Qed.

Lemma one_hot_sum (n i : nat) : (i < n)%nat -> sum_Z (one_hot n i) = 1%Z.
Proof.
  revert i. induction n as [|n IH]; intros i Hi; [lia|].
  destruct i as [|i]; unfold one_hot in *; simpl.
  - now rewrite sum_Z_zeros.
  - apply IH. lia.
Qed.

Lemma one_hot_bits (n i : nat) :
  Forall (fun x => x = 0%Z \/ x = 1%Z) (one_hot n i).
Proof.
  revert i. induction n as [|n IH]; intros i; [constructor|].
  destruct i as [|i]; unfold one_hot in *; simpl.
  - constructor; [now right|].
    apply List.Forall_forall. intros x Hx. left.
    apply list_elem_of_In, elem_of_replicate in Hx. tauto.
  - constructor; [now left|apply IH].
Qed.

(** What a returned label is: the one-hot vector at the position numpy
    gives the index. *)
Lemma gen_action_distribution_ok_inv (a dim : Z) (v : list Z) :
  gen_action_distribution a dim = Ok v ->
  (- dim <= a < dim)%Z /\
  v = one_hot (Z.to_nat dim) (wrapped_index a dim) /\
  (wrapped_index a dim < Z.to_nat dim)%nat.
Proof.
  unfold gen_action_distribution, one_hot, wrapped_index.
  destruct (Z.ltb_spec dim 0); [discriminate|].
  destruct (Z.leb_spec max_array_entries dim); [discriminate|].
  destruct (Z.leb_spec 0 a), (Z.ltb_spec a dim); simpl.
  - destruct (Z.ltb_spec a 0); [lia|].
    intros Hv. inversion Hv. repeat split; lia.
  - destruct (Z.leb_spec (- dim) a), (Z.ltb_spec a 0); simpl;
      try discriminate; lia.
  - destruct (Z.leb_spec (- dim) a), (Z.ltb_spec a 0); simpl;
      try discriminate; try lia.
    intros Hv. inversion Hv. repeat split; lia.
  - lia.
Qed.

(** Every label [gen_action_distribution] returns is a point distribution:
    it has [action_dim] entries, each 0 or 1, summing to 1, with the 1 at
    index [a] when [a >= 0] and at [action_dim + a] otherwise. *)
Theorem gen_action_distribution_point_mass (a action_dim : Z) (v : list Z) :
  gen_action_distribution a action_dim = Ok v ->
  (- action_dim <= a < action_dim)%Z /\
  length v = Z.to_nat action_dim /\
  v !! wrapped_index a action_dim = Some 1%Z /\
  Forall (fun x => x = 0%Z \/ x = 1%Z) v /\
  sum_Z v = 1%Z.
Proof.
  intros Hv.
  destruct (gen_action_distribution_ok_inv _ _ _ Hv) as (Hr & -> & Hi).
  split; [exact Hr|].
  destruct (one_hot_spec _ _ Hi) as (Hlen & Hat & _).
  split; [exact Hlen|]. split; [exact Hat|].
  split; [apply one_hot_bits|now apply one_hot_sum].
Qed.

Lemma gen_action_distribution_point_mass_witness :
  gen_action_distribution (-2) 5 = Ok [0; 0; 0; 1; 0]%Z /\
  [0; 0; 0; 1; 0]%Z !! 3%nat = Some 1%Z /\
  sum_Z [0; 0; 0; 1; 0]%Z = 1%Z.
Proof.
  split; [reflexivity|].
  destruct (gen_action_distribution_point_mass (-2) 5 [0; 0; 0; 1; 0]%Z)
    as (_ & _ & Hat & _ & Hsum); [reflexivity|].
  split; [exact Hat|exact Hsum].
Defined.

(** Which exception for which input. *)
Lemma gen_action_distribution_err_cases (a action_dim : Z) :
  (gen_action_distribution a action_dim = Err ValueError <->
   (action_dim < 0 \/ max_array_entries <= action_dim)%Z) /\
  (gen_action_distribution a action_dim = Err IndexError <->
   (0 <= action_dim < max_array_entries)%Z /\
   (a < - action_dim \/ action_dim <= a)%Z).
Proof.
  unfold gen_action_distribution.
  destruct (Z.ltb_spec action_dim 0).
  { split; split; try tauto; try discriminate. intros [? _]. lia. }
  destruct (Z.leb_spec max_array_entries action_dim).
  { split; split; try tauto; try discriminate. intros [? _]. lia. }
  destruct (Z.leb_spec 0 a), (Z.ltb_spec a action_dim),
    (Z.leb_spec (- action_dim) a), (Z.ltb_spec a 0); simpl;
    (split; split; [discriminate || lia
                   |discriminate || lia
                   |discriminate || (intros _; split; lia) || lia
                   |(intros [_ [?|?]]; lia) || reflexivity]).
Qed.

(** The labels of a whole batch, as [train] builds them with the default
    [action_dim] of 5: when every action lies in [-5, 5) the batch comes
    out, one label per action in order; one action outside that range makes
    the whole comprehension raise [IndexError]. *)
Theorem encode_actions_all_or_nothing (elite_actions : list Z) :
  (Forall (fun a => (-5 <= a < 5)%Z) elite_actions ->
   encode_actions elite_actions =
     Ok (map (fun a => one_hot 5 (wrapped_index a 5)) elite_actions)) /\
  (Exists (fun a => (a < -5 \/ 5 <= a)%Z) elite_actions ->
   encode_actions elite_actions = Err IndexError).
Proof.
  split.
  - induction 1 as [|a rest Ha Hrest IH]; [reflexivity|].
    cbn [encode_actions mbind result_bind rbind].
    destruct (gen_action_distribution a default_action_dim) as [d|e] eqn:Ed.
    + apply gen_action_distribution_ok_inv in Ed as (_ & -> & _).
      cbn [rbind]. rewrite IH. reflexivity.
    + exfalso. destruct e.
      * apply (proj1 (gen_action_distribution_err_cases a default_action_dim))
          in Ed. unfold default_action_dim, max_array_entries in Ed. lia.
      * apply (proj2 (gen_action_distribution_err_cases a default_action_dim))
          in Ed. unfold default_action_dim, max_array_entries in Ed. lia.
  - induction elite_actions as [|a rest IH]; intros Hex;
      [inversion Hex|].
    cbn [encode_actions mbind result_bind rbind].
    destruct (gen_action_distribution a default_action_dim) as [d|e] eqn:Ed.
    + cbn [rbind]. inversion Hex as [? ? Ha|? ? Hrest]; subst.
      * apply gen_action_distribution_ok_inv in Ed as (Hr & _).
        unfold default_action_dim in Hr. lia.
      * rewrite (IH Hrest). reflexivity.
    + cbn [rbind]. destruct e; [|reflexivity].
      apply (proj1 (gen_action_distribution_err_cases a default_action_dim))
        in Ed. unfold default_action_dim, max_array_entries in Ed. lia.
Qed.

Lemma encode_actions_all_or_nothing_witness :
  encode_actions [0; 4; -1]%Z =
    Ok [[1; 0; 0; 0; 0]; [0; 0; 0; 0; 1]; [0; 0; 0; 0; 1]]%Z /\
  encode_actions [0; 5; 1]%Z = Err IndexError.
Proof.
  split.
  - apply (proj1 (encode_actions_all_or_nothing [0; 4; -1]%Z)).
    repeat constructor; lia.
  - apply (proj2 (encode_actions_all_or_nothing [0; 5; 1]%Z)).
    right. left. lia.
Defined.

(** ** Rollouts read backwards: from the result to the episode *)

Section RolloutMore.

Context {EnvId EnvSt Obs FlatObs Params Rng : Type}.
Context {E : Environment EnvId EnvSt Obs}.
Context {B : Backend Params Rng Obs FlatObs}.

#[local] Abbreviation world := (World EnvSt Params Rng FlatObs).

(** Peel one returning [bind]: name the intermediate world and value. *)
Ltac bind_step H w a Hm :=
  apply bind_inv in H as [(w & a & Hm & H)|(? & _ & _ & H)];
  [|exfalso; eapply H; reflexivity].

Lemma get_action_returns (o : Obs) (w : world) :
  exists (g : Rng) (a : Z),
    get_action o w = (mkWorld (w_env w) (w_brain w) g (w_log w), Ret a).
Proof.
  unfold get_action, policy_mlp.
  destruct (categorical_of_log _ _) as [g a]. now exists g, a.
Qed.

Lemma step_returns (a : Z) (w : world) :
  exists (e : EnvSt) (x : Obs * Q * bool),
    step a w = (mkWorld e (w_brain w) (w_rng w) (w_log w ++ [EvStep a]), Ret x).
Proof.
  unfold step. destruct (env_step (w_env w) a) as [e x]. now exists e, x.
Qed.

Lemma episode_nonempty (w w' : world) (o : Obs) (steps : list (Transition Obs)) :
  episode w o steps w' -> (1 <= length steps)%nat.
Proof. destruct 1; simpl; lia. Qed.

Lemma episode_log (w w' : world) (o : Obs) (steps : list (Transition Obs)) :
  episode w o steps w' ->
  w_log w' = w_log w ++ map EvStep (map taken steps) /\
  w_brain w' = w_brain w.
Proof.
  assert (forall (w w1 w2 : world) o a x,
            get_action o w = (w1, Ret a) -> step a w1 = (w2, Ret x) ->
            w_log w2 = w_log w ++ [EvStep a] /\ w_brain w2 = w_brain w)
    as Hone.
  { intros v v1 v2 o0 a x Hact Hstep.
    destruct (get_action_returns o0 v) as (g & a' & Hact').
    rewrite Hact' in Hact. inversion Hact; subst.
    destruct (step_returns a (mkWorld (w_env v) (w_brain v) g (w_log v)))
      as (e & x' & Hstep').
    rewrite Hstep' in Hstep. inversion Hstep; subst. now split. }
  induction 1 as [w w1 w2 o o' a r Hact Hstep
                 |w w1 w2 w3 o o' a r rest Hact Hstep Hrest IH].
  - exact (Hone _ _ _ _ _ _ Hact Hstep).
  - destruct (Hone _ _ _ _ _ _ Hact Hstep) as [Hl Hb].
    destruct IH as [IHl IHb]. split; [|congruence].
    rewrite IHl, Hl, <- app_assoc. reflexivity.
Qed.

Lemma rollout_loop_inv (fuel : nat) :
  forall (o : Obs) (observations : list FlatObs) (acts : list Z) (total : Q)
         (w w' : world) (O : list FlatObs) (A : list Z) (R : Q),
    rollout_loop fuel o observations acts total w = (w', Ret (O, A, R)) ->
    exists steps : list (Transition Obs),
      episode w o steps w' /\
      (length steps <= fuel)%nat /\
      O = observations ++ map (fun t => reshape_flat (pre_obs t)) steps /\
      A = acts ++ map taken steps /\
      R = fold_left Qplus (map gained steps) total.
Proof.
  induction fuel as [|fuel IH]; intros o observations acts total w w' O A R H;
    [discriminate|].
  cbn [rollout_loop] in H. unfold mbind, M_bind in H.
  bind_step H w1 a Hact. bind_step H w2 x Hstep.
  destruct x as [[o' r] done]. destruct done.
  - inversion H; subst.
    exists [mkTransition o a r o' true]. split; [|now repeat split; simpl; lia].
    eapply episode_last; eassumption.
  - apply IH in H as (steps & Hep & Hlen & -> & -> & ->).
    exists (mkTransition o a r o' false :: steps).
    split; [eapply episode_more; eassumption|].
    split; [simpl; lia|].
    cbn [map fold_left pre_obs taken gained].
    rewrite <- !app_assoc. now repeat split.
Qed.

(** Whatever [rollout] returns is the record of a complete episode that
    happened: it has at least one step and no more than the loop was allowed,
    observations and actions pair up, and the environment was closed on the
    world the episode ended in. *)
Theorem rollout_returns_episode (fuel : nat) (w w' : world)
  (O : list FlatObs) (A : list Z) (R : Q) :
  rollout fuel w = (w', Ret (O, A, R)) ->
  exists (steps : list (Transition Obs)) (w1 : world),
    terminating_episode w steps w1 /\
    w' = closed w1 /\
    (1 <= length steps <= fuel)%nat /\
    O = map (fun t => reshape_flat (pre_obs t)) steps /\
    A = map taken steps /\
    R = running_total (map gained steps) /\
    length O = length A.
Proof.
  intros H. unfold rollout, mbind, M_bind in H.
  bind_step H w0 o0 Hreset. bind_step H w1 xp Hloop.
  destruct xp as [[O' A'] R'].
  apply rollout_loop_inv in Hloop as (steps & Hep & Hlen & -> & -> & ->).
  unfold bind, close, ret in H. inversion H; subst.
  exists steps, w1. split; [now exists w0, o0|].
  split; [reflexivity|].
  split; [split; [now apply episode_nonempty in Hep|assumption]|].
  simpl. rewrite !length_map. now repeat split.
Qed.

Lemma rollout_calls (fuel : nat) (w w' : world)
  (O : list FlatObs) (A : list Z) (R : Q) :
  rollout fuel w = (w', Ret (O, A, R)) ->
  w_log w' = w_log w ++ rollout_events A /\
  w_brain w' = w_brain w.
Proof.
  intros H. unfold rollout, mbind, M_bind in H.
  bind_step H w0 o0 Hreset. bind_step H w1 xp Hloop.
  destruct xp as [[O' A'] R'].
  apply rollout_loop_inv in Hloop as (steps & Hep & _ & -> & -> & ->).
  apply episode_log in Hep as [Hl Hb].
  unfold bind, close, ret in H. inversion H; subst.
  unfold reset in Hreset. destruct (env_reset (w_env w)) as [e o'].
  inversion Hreset; subst. simpl in *.
  split; [|exact Hb].
  rewrite Hl. unfold rollout_events. rewrite <- !app_assoc. reflexivity.
Qed.

(** A returned rollout made exactly these calls, in this order: one
    [env.reset()], one [env.step] per recorded action with that action, one
    [env.close()]; and it left the brain as it was. *)
Theorem rollout_log_shape (fuel : nat) (w w' : world)
  (O : list FlatObs) (A : list Z) (R : Q) :
  rollout fuel w = (w', Ret (O, A, R)) ->
  w_log w' = w_log w ++ rollout_events A /\
  w_brain w' = w_brain w.
Proof. apply rollout_calls. Qed.

Lemma rollout_loop_endless (fuel : nat) :
  (forall (e : EnvSt) (a : Z), snd (snd (env_step e a)) = false) ->
  forall (o : Obs) (observations : list FlatObs) (acts : list Z) (total : Q)
         (w : world),
  exists (w' : world) (taken_actions : list Z),
    rollout_loop fuel o observations acts total w = (w', OutOfFuel) /\
    length taken_actions = fuel /\
    w_log w' = w_log w ++ map EvStep taken_actions.
Proof.
  intros Hnever. induction fuel as [|fuel IH];
    intros o observations acts total w.
  - exists w, []. simpl. now rewrite app_nil_r.
  - cbn [rollout_loop]. unfold mbind, M_bind.
    destruct (get_action_returns o w) as (g & a & Hact).
    rewrite (bind_ret _ _ _ _ _ Hact).
    set (w1 := mkWorld (w_env w) (w_brain w) g (w_log w)).
    pose proof (Hnever (w_env w1) a) as Hdone.
    unfold bind at 1, step.
    destruct (env_step (w_env w1) a) as [e [[o' r] done]].
    simpl in Hdone. subst done. cbv beta iota zeta.
    destruct (IH o' (observations ++ [reshape_flat o]) (acts ++ [a])
                 (total + r)
                 (emit (EvStep a)
                       (mkWorld e (w_brain w1) (w_rng w1) (w_log w1))))
      as (w' & tl & Hrun & Hlen & Hlog).
    exists w', (a :: tl). rewrite Hrun. split; [reflexivity|].
    split; [simpl; lia|].
    rewrite Hlog. simpl. rewrite <- app_assoc. reflexivity.
Qed.

(** When the environment never reports [done], [rollout] never returns and
    never raises: however many iterations it is allowed, it has reset the
    environment once, stepped it at every iteration, and not closed it. *)
Theorem rollout_endless (fuel : nat) (w : world) :
  (forall (e : EnvSt) (a : Z), snd (snd (env_step e a)) = false) ->
  exists (w' : world) (taken_actions : list Z),
    rollout fuel w = (w', OutOfFuel) /\
    length taken_actions = fuel /\
    w_log w' = w_log w ++ EvReset :: map EvStep taken_actions.
Proof.
  intros Hnever. unfold rollout, mbind, M_bind.
  unfold bind at 1, reset. destruct (env_reset (w_env w)) as [e o].
  cbv beta iota zeta.
  destruct (rollout_loop_endless fuel Hnever o [] [] 0
              (emit EvReset (mkWorld e (w_brain w) (w_rng w) (w_log w))))
    as (w' & tl & Hrun & Hlen & Hlog).
  exists w', tl. unfold bind. rewrite Hrun. split; [reflexivity|].
  split; [assumption|].
  rewrite Hlog. simpl. rewrite <- app_assoc. reflexivity.
Qed.

End RolloutMore.

Lemma rollout_returns_episode_witness :
  Toy.toy_rollout 5 (Toy.world0 1) =
    (mkWorld 2%nat (w_brain (Toy.world0 1)) 3%nat
             [EvReset; EvStep 1; EvStep 2; EvClose],
     Ret ([[0%Z]; [1%Z]], [1%Z; 2%Z], 0 + 1 + 2)) /\
  exists steps : list (Transition nat),
    (1 <= length steps <= 5)%nat /\ [1%Z; 2%Z] = map taken steps.
Proof.
  split; [reflexivity|].
  destruct (rollout_returns_episode (E := Toy.toy_env) (B := Toy.toy_backend)
              5 (Toy.world0 1)
              (mkWorld 2%nat (w_brain (Toy.world0 1)) 3%nat
                       [EvReset; EvStep 1; EvStep 2; EvClose])
              [[0%Z]; [1%Z]] [1%Z; 2%Z] (0 + 1 + 2))
    as (steps & w1 & _ & _ & Hlen & _ & Hacts & _); [reflexivity|].
  exists steps. split; [exact Hlen|exact Hacts].
Defined.

Lemma rollout_log_shape_witness :
  Toy.toy_rollout 5 (Toy.world0 1) =
    (mkWorld 2%nat (w_brain (Toy.world0 1)) 3%nat
             [EvReset; EvStep 1; EvStep 2; EvClose],
     Ret ([[0%Z]; [1%Z]], [1%Z; 2%Z], 0 + 1 + 2)) /\
  [EvReset; EvStep 1; EvStep 2; EvClose] =
    w_log (Toy.world0 1) ++ rollout_events (FlatObs := list Z) [1%Z; 2%Z].
Proof.
  split; [reflexivity|].
  apply (proj1 (rollout_log_shape (E := Toy.toy_env) (B := Toy.toy_backend)
                  5 (Toy.world0 1)
                  (mkWorld 2%nat (w_brain (Toy.world0 1)) 3%nat
                           [EvReset; EvStep 1; EvStep 2; EvClose])
                  [[0%Z]; [1%Z]] [1%Z; 2%Z] (0 + 1 + 2) eq_refl)).
Defined.

Lemma rollout_endless_witness :
  (forall (e : nat) (a : Z),
     snd (snd (env_step (Environment := Endless.endless_env) e a)) = false) /\
  exists (w' : World nat unit nat (list Z)) (taken_actions : list Z),
    rollout (E := Endless.endless_env) (B := Toy.toy_backend) 4
            (Toy.world0 0) = (w', OutOfFuel) /\
    length taken_actions = 4%nat /\
    w_log w' = w_log (Toy.world0 0) ++ EvReset :: map EvStep taken_actions.
Proof.
  split; [intros e a; reflexivity|].
  apply (rollout_endless (E := Endless.endless_env) (B := Toy.toy_backend)
           4 (Toy.world0 0)).
  intros e a. reflexivity.
Defined.

(** ** evaluate *)

Section EvaluateFacts.

Context {EnvId EnvSt Obs FlatObs Params Rng Info : Type}.
Context {E : Environment EnvId EnvSt Obs}.
Context {B : Backend Params Rng Obs FlatObs}.
Context {Mo : Monitor EnvSt Info}.

#[local] Abbreviation world := (World EnvSt Params Rng FlatObs).

Ltac bind_step H w a Hm :=
  apply bind_inv in H as [(w & a & Hm & H)|(? & _ & _ & H)];
  [|exfalso; eapply H; reflexivity].

(** Without rendering, the two loops walk the same steps: whatever the
    evaluation loop returns, the rollout loop returns from the same world,
    in the same final world, with the same total and as many new actions as
    steps were counted. *)
Lemma evaluate_loop_rollout_loop (fuel : nat) :
  forall (o : Obs) (total : Q) (n : Z) (observations : list FlatObs)
         (acts : list Z) (w w1 : world) (n' : Z) (r : Q) (d : bool)
         (i : option Info),
    evaluate_loop fuel false o total n w = (w1, Ret (n', r, d, i)) ->
    d = true /\ i <> None /\ (n < n')%Z /\
    exists (O : list FlatObs) (A : list Z),
      rollout_loop fuel o observations acts total w = (w1, Ret (O, A, r)) /\
      Z.of_nat (length A) = (Z.of_nat (length acts) + (n' - n))%Z.
Proof.
  induction fuel as [|fuel IH];
    intros o total n observations acts w w1 n' r d i H; [discriminate|].
  cbn [evaluate_loop] in H. unfold mbind, M_bind in H.
  bind_step H wa a Hact. bind_step H wi info Hinfo.
  unfold info_of_step in Hinfo. inversion Hinfo; subst wi. clear Hinfo.
  bind_step H ws x Hstep. destruct x as [[o' rw] done].
  bind_step H wr u Hret. unfold ret in Hret. inversion Hret; subst wr.
  clear Hret.
  cbn [rollout_loop]. unfold mbind, M_bind.
  rewrite (bind_ret _ _ _ _ _ Hact), (bind_ret _ _ _ _ _ Hstep).
  destruct done.
  - inversion H; subst.
    split; [reflexivity|]. split; [discriminate|]. split; [lia|].
    do 2 eexists. split; [reflexivity|]. rewrite length_app. simpl. lia.
  - apply (IH _ _ _ (observations ++ [reshape_flat o]) (acts ++ [a])) in H
      as (Hd & Hi & Hn & O & A & Hrun & Hlen).
    split; [assumption|]. split; [assumption|]. split; [lia|].
    exists O, A. split; [exact Hrun|].
    rewrite Hlen, length_app. simpl. lia.
Qed.

(** [evaluate] without rendering sees what [rollout] records: when it
    returns [(step_num, episode_reward, done, info)], then [done] is true,
    [info] is that of a step, at least one step was counted, and [rollout]
    from the same world returns the same total reward with [step_num]
    actions, ending in the world [evaluate] ended in, once closed:
    [evaluate] itself leaves the environment open. *)
Theorem evaluate_agrees_with_rollout (fuel : nat) (w w1 : world)
  (step_num : Z) (episode_reward : Q) (done : bool) (info : option Info) :
  evaluate fuel false w = (w1, Ret (step_num, episode_reward, done, info)) ->
  done = true /\ info <> None /\ (1 <= step_num)%Z /\
  exists (O : list FlatObs) (A : list Z),
    rollout fuel w = (closed w1, Ret (O, A, episode_reward)) /\
    Z.of_nat (length A) = step_num.
Proof.
  intros H. unfold evaluate, mbind, M_bind in H.
  bind_step H w0 o0 Hreset.
  apply (evaluate_loop_rollout_loop _ _ _ _ [] []) in H
    as (Hd & Hi & Hn & O & A & Hrun & Hlen).
  split; [assumption|]. split; [assumption|]. split; [lia|].
  exists O, A. split; [|simpl in Hlen; lia].
  unfold rollout, mbind, M_bind.
  rewrite (bind_ret _ _ _ _ _ Hreset), (bind_ret _ _ _ _ _ Hrun).
  reflexivity.
Qed.

End EvaluateFacts.

Lemma evaluate_agrees_with_rollout_witness :
  evaluate (E := Toy.toy_env) (B := Toy.toy_backend) (Mo := toy_monitor)
           5 false (Toy.world0 1) =
    (mkWorld 2%nat (w_brain (Toy.world0 1)) 3%nat
             [EvReset; EvStep 1; EvStep 2],
     Ret (2%Z, 0 + 1 + 2, true, Some 2%nat)) /\
  exists (O : list (list Z)) (A : list Z),
    Toy.toy_rollout 5 (Toy.world0 1) =
      (mkWorld 2%nat (w_brain (Toy.world0 1)) 3%nat
               [EvReset; EvStep 1; EvStep 2; EvClose],
       Ret (O, A, 0 + 1 + 2)) /\
    Z.of_nat (length A) = 2%Z.
Proof.
  split; [reflexivity|].
  apply (evaluate_agrees_with_rollout (E := Toy.toy_env)
           (B := Toy.toy_backend) (Mo := toy_monitor) 5 (Toy.world0 1)
           (mkWorld 2%nat (w_brain (Toy.world0 1)) 3%nat
                    [EvReset; EvStep 1; EvStep 2])
           2%Z (0 + 1 + 2) true (Some 2%nat) eq_refl).
Defined.

(** ** What a returning [train] has done *)

Lemma count_events_app {FlatObs : Type} (f : Event FlatObs -> bool)
  (l1 l2 : list (Event FlatObs)) :
  count_events f (l1 ++ l2) = (count_events f l1 + count_events f l2)%nat.
Proof. unfold count_events. now rewrite List.filter_app, length_app. Qed.

Lemma count_events_steps {FlatObs : Type} (f : Event FlatObs -> bool)
  (acts : list Z) :
  (forall a, f (EvStep a) = false) ->
  count_events f (map EvStep acts) = 0%nat.
Proof.
  intros Hf. unfold count_events.
  induction acts as [|a acts IH]; [reflexivity|]. simpl. now rewrite Hf.
Qed.

(** One rollout: one reset, one close, no fit, no print. *)
Lemma count_rollout_events {FlatObs : Type} (acts : list Z) :
  count_events reset_b (rollout_events (FlatObs := FlatObs) acts) = 1%nat /\
  count_events close_b (rollout_events (FlatObs := FlatObs) acts) = 1%nat /\
  count_events fit_b (rollout_events (FlatObs := FlatObs) acts) = 0%nat /\
  count_events print_b (rollout_events (FlatObs := FlatObs) acts) = 0%nat.
Proof.
  unfold rollout_events.
  change (EvReset :: map EvStep acts ++ [EvClose])
    with ([@EvReset FlatObs] ++ map EvStep acts ++ [EvClose]).
  rewrite !count_events_app, !count_events_steps by reflexivity.
  repeat split; reflexivity.
Qed.

Lemma count_rollouts_events {FlatObs : Type} (ts : list (Trajectory FlatObs)) :
  let l : list (Event FlatObs) :=
    concat (map (fun t => rollout_events (actions t)) ts) in
  count_events reset_b l = length ts /\
  count_events close_b l = length ts /\
  count_events fit_b l = 0%nat /\
  count_events print_b l = 0%nat.
Proof.
  induction ts as [|t ts IH]; [now repeat split|].
  cbn [map concat length]. destruct IH as (H1 & H2 & H3 & H4).
  destruct (count_rollout_events (FlatObs := FlatObs) (actions t))
    as (R1 & R2 & R3 & R4).
  rewrite !count_events_app, H1, H2, H3, H4, R1, R2, R3, R4.
  now repeat split.
Qed.

Section TrainMore.

Context {EnvId EnvSt Obs FlatObs Params Rng : Type}.
Context {E : Environment EnvId EnvSt Obs}.
Context {B : Backend Params Rng Obs FlatObs}.

#[local] Abbreviation world := (World EnvSt Params Rng FlatObs).

Ltac bind_step H w a Hm :=
  apply bind_inv in H as [(w & a & Hm & H)|(? & _ & _ & H)];
  [|exfalso; eapply H; reflexivity].

Lemma rollouts_calls (fuel k : nat) :
  forall (w w' : world) (ts : list (Trajectory FlatObs)),
    rollouts fuel k w = (w', Ret ts) ->
    length ts = k /\
    w_log w' =
      w_log w ++ concat (map (fun t => rollout_events (actions t)) ts) /\
    w_brain w' = w_brain w.
Proof.
  induction k as [|k IH]; intros w w' ts H; cbn [rollouts] in H.
  - inversion H; subst. simpl. now rewrite app_nil_r.
  - unfold mbind, M_bind in H.
    bind_step H w1 xp Hroll. destruct xp as [[O A] R].
    bind_step H w2 rest Hrest. inversion H; subst.
    apply rollout_calls in Hroll as [Hl1 Hb1].
    apply IH in Hrest as (Hlen & Hl2 & Hb2).
    split; [simpl; lia|]. split; [|congruence].
    rewrite Hl2, Hl1. cbn [map concat actions].
    now rewrite <- app_assoc.
Qed.

(** The anatomy of an epoch that completes. *)
(** The steps of an epoch that completes, each on the result of the one
    before. *)
Lemma train_epoch_steps (fuel : nat) (n : Z) (p : Q) (i : nat)
  (m t m' t' : list Q) (w w' : world) :
  train_epoch fuel n p i m t w = (w', Ret (m', t')) ->
  exists (w1 : world) (ts : list (Trajectory FlatObs)) (eo : list FlatObs)
         (ea : list Z) (threshold : Q) (labels : list (list Z)),
    rollouts fuel (Z.to_nat n) w = (w1, Ret ts) /\
    gather_elite_xp ts p = Ok (eo, ea, threshold) /\
    encode_actions ea = Ok labels /\
    w' = emit (EvPrint (i + 1) threshold (np_mean (map reward ts)))
              (fst (learn (map astype_float16 eo) labels w1)) /\
    w_log w' =
      w_log w1 ++ [EvFit (map astype_float16 eo) labels;
                   EvPrint (i + 1) threshold (np_mean (map reward ts))] /\
    m' = m ++ [np_mean (map reward ts)] /\
    t' = t ++ [threshold].
Proof.
  intros H. unfold train_epoch, mbind, M_bind in H.
  bind_step H w1 ts Hroll.
  bind_step H w2 unz Hunz. destruct unz as [[xs ys] batch_rewards].
  apply lift_ret_inv in Hunz as [Hunz ->].
  bind_step H w3 gx Hg. destruct gx as [[eo ea] threshold].
  apply lift_ret_inv in Hg as [Hg ->].
  bind_step H w4 labels Hlab. apply lift_ret_inv in Hlab as [Hlab ->].
  bind_step H w5 u Hlearn. bind_step H w6 u' Hprint.
  unfold ret in H. inversion H; subst. clear H.
  unfold learn in Hlearn. inversion Hlearn; subst. clear Hlearn.
  unfold emit_m in Hprint. inversion Hprint; subst. clear Hprint.
  assert (batch_rewards = map reward ts) as ->.
  { destruct ts; [discriminate|]. now inversion Hunz. }
  exists w1, ts, eo, ea, threshold, labels.
  split; [exact Hroll|]. split; [exact Hg|]. split; [exact Hlab|].
  split; [reflexivity|]. split; [|now split].
  simpl. rewrite <- app_assoc. reflexivity.
Qed.

Lemma train_epoch_inv (fuel : nat) (n : Z) (p : Q) (i : nat)
  (m t m' t' : list Q) (w w' : world) :
  train_epoch fuel n p i m t w = (w', Ret (m', t')) ->
  exists (ts : list (Trajectory FlatObs)) (eo : list FlatObs) (ea : list Z)
         (threshold : Q) (labels : list (list Z)),
    length ts = Z.to_nat n /\
    gather_elite_xp ts p = Ok (eo, ea, threshold) /\
    encode_actions ea = Ok labels /\
    m' = m ++ [np_mean (map reward ts)] /\
    t' = t ++ [threshold] /\
    w_log w' =
      w_log w ++ concat (map (fun t => rollout_events (actions t)) ts)
              ++ [EvFit (map astype_float16 eo) labels;
                  EvPrint (i + 1) threshold (np_mean (map reward ts))].
Proof.
  intros H.
  apply train_epoch_steps in H
    as (w1 & ts & eo & ea & threshold & labels
        & Hroll & Hg & Hlab & _ & Hlog & Hm & Ht).
  apply rollouts_calls in Hroll as (Hlen & Hl & Hb).
  exists ts, eo, ea, threshold, labels.
  repeat (split; [assumption|]).
  rewrite Hlog, Hl, <- !app_assoc. reflexivity.
Qed.

(** An epoch that completes is this chain, each step on what the one before
    left: the rollouts return the trajectories [ts]; the elite is selected
    among [ts]; the elite actions are encoded; [learn] is called, on the
    world the rollouts left, with the cast elite observations and those
    labels, so [fit] is the next call after the last rollout; a line is
    printed. The mean appended to [mean_rewards] is that of the rewards of
    all of [ts], elite or not, and the threshold appended is the one the
    selection returned. *)
Theorem train_epoch_completes (fuel : nat) (n : Z) (p : Q) (i : nat)
  (m t m' t' : list Q) (w w' : world) :
  train_epoch fuel n p i m t w = (w', Ret (m', t')) ->
  exists (w1 : world) (ts : list (Trajectory FlatObs)) (eo : list FlatObs)
         (ea : list Z) (threshold : Q) (labels : list (list Z)),
    rollouts fuel (Z.to_nat n) w = (w1, Ret ts) /\
    gather_elite_xp ts p = Ok (eo, ea, threshold) /\
    encode_actions ea = Ok labels /\
    w' = emit (EvPrint (i + 1) threshold (np_mean (map reward ts)))
              (fst (learn (map astype_float16 eo) labels w1)) /\
    w_log w' =
      w_log w1 ++ [EvFit (map astype_float16 eo) labels;
                   EvPrint (i + 1) threshold (np_mean (map reward ts))] /\
    m' = m ++ [np_mean (map reward ts)] /\
    t' = t ++ [threshold].
Proof. apply train_epoch_steps. Qed.

Lemma train_epoch_counts (fuel : nat) (n : Z) (p : Q) (i : nat)
  (m t m' t' : list Q) (w w' : world) :
  train_epoch fuel n p i m t w = (w', Ret (m', t')) ->
  length m' = S (length m) /\ length t' = S (length t) /\
  (0 < n)%Z /\ 0 <= p <= 100 /\
  count_events reset_b (w_log w') =
    (count_events reset_b (w_log w) + Z.to_nat n)%nat /\
  count_events close_b (w_log w') =
    (count_events close_b (w_log w) + Z.to_nat n)%nat /\
  count_events fit_b (w_log w') = S (count_events fit_b (w_log w)) /\
  count_events print_b (w_log w') = S (count_events print_b (w_log w)).
Proof.
  intros H.
  apply train_epoch_inv in H
    as (ts & eo & ea & th & labels & Hlen & Hg & _ & -> & -> & Hlog).
  destruct (count_rollouts_events ts) as (R1 & R2 & R3 & R4).
  rewrite Hlog, !count_events_app, R1, R2, R3, R4, Hlen, !length_app.
  apply gather_elite_xp_ok_inv in Hg as [Hne Hp].
  assert (0 < n)%Z as Hn by (destruct ts; [contradiction|simpl in Hlen; lia]).
  assert (0 <= p <= 100) as Hrange.
  { destruct (Qlt_le_dec p 0) as [Hneg|Hnonneg];
      [rewrite np_percentile_invalid in Hp by (now left); discriminate|].
    destruct (Qlt_le_dec 100 p) as [Hbig|Hsmall];
      [rewrite np_percentile_invalid in Hp by (now right); discriminate|].
    now split. }
  unfold count_events. simpl.
  repeat split; try assumption; try lia; apply Hrange.
Qed.

Lemma train_epochs_counts (fuel : nat) (n : Z) (p : Q) (k : nat) :
  forall (i : nat) (m t m' t' : list Q) (w w' : world),
    train_epochs fuel n p k i m t w = (w', Ret (m', t')) ->
    length m' = (length m + k)%nat /\ length t' = (length t + k)%nat /\
    ((0 < k)%nat -> (0 < n)%Z /\ 0 <= p <= 100) /\
    count_events reset_b (w_log w') =
      (count_events reset_b (w_log w) + k * Z.to_nat n)%nat /\
    count_events close_b (w_log w') =
      (count_events close_b (w_log w) + k * Z.to_nat n)%nat /\
    count_events fit_b (w_log w') = (count_events fit_b (w_log w) + k)%nat /\
    count_events print_b (w_log w') =
      (count_events print_b (w_log w) + k)%nat.
Proof.
  induction k as [|k IH]; intros i m t m' t' w w' H; cbn [train_epochs] in H.
  - inversion H; subst. repeat split; lia.
  - unfold mbind, M_bind in H.
    bind_step H w1 mt Hepoch. destruct mt as [m1 t1].
    apply train_epoch_counts in Hepoch
      as (Hm & Ht & Hn & Hp & H1 & H2 & H3 & H4).
    apply IH in H as (Hm' & Ht' & _ & K1 & K2 & K3 & K4).
    rewrite Hm', Ht', K1, K2, K3, K4, Hm, Ht, H1, H2, H3, H4.
    repeat split; try assumption; try lia; apply Hp.
Qed.

(** When [train] returns, it returns [None], and it has run every epoch in
    full: [num_epochs] times the requested number of rollouts, each reset
    and closed, one [fit] and one printed line per epoch, and two plotted
    series with one entry per epoch. If it ran at least one epoch, the
    number of rollouts was positive and the percentile within [0, 100]. *)
Theorem train_runs_every_epoch (fuel : nat) (seed : Rng) (env_id : EnvId)
  (num_trajectory_rollouts : Z) (p : Q) (num_epochs : Z) (w' : world)
  (v : train_value) :
  train fuel seed env_id num_trajectory_rollouts p num_epochs = (w', Ret v) ->
  let epochs := Z.to_nat num_epochs in
  let per_epoch := Z.to_nat num_trajectory_rollouts in
  v = None /\
  count_events reset_b (w_log w') = (epochs * per_epoch)%nat /\
  count_events close_b (w_log w') = (epochs * per_epoch)%nat /\
  count_events fit_b (w_log w') = epochs /\
  count_events print_b (w_log w') = epochs /\
  (exists (l : list (Event FlatObs)) (mean_rewards thresholds : list Q),
     w_log w' = l ++ [EvPlot mean_rewards; EvPlot thresholds] /\
     length mean_rewards = epochs /\ length thresholds = epochs) /\
  ((0 < num_epochs)%Z -> (0 < num_trajectory_rollouts)%Z /\ 0 <= p <= 100).
Proof.
  intros H epochs per_epoch.
  unfold train, train_body, mbind, M_bind in H.
  bind_step H w1 mt Hepochs. destruct mt as [m t].
  unfold bind, emit_m, ret in H. inversion H; subst. clear H.
  apply train_epochs_counts in Hepochs
    as (Hm & Ht & Hvalid & K1 & K2 & K3 & K4).
  split; [reflexivity|]. simpl.
  change (w_log w1 ++ [EvPlot m]) with (w_log w1 ++ [@EvPlot FlatObs m]).
  rewrite !count_events_app, K1, K2, K3, K4.
  unfold count_events. simpl. fold epochs per_epoch.
  split; [lia|]. split; [lia|]. split; [lia|]. split; [lia|]. split.
  - exists (w_log w1), m, t. rewrite <- app_assoc. now repeat split.
  - intros Hpos. apply Hvalid. subst epochs. lia.
Qed.

End TrainMore.

Lemma train_epoch_completes_witness :
  exists (w1 : World nat unit nat (list Z)) (ts : list (Trajectory (list Z))),
    train_epoch (E := Toy.toy_env) (B := Toy.toy_backend) 10 3 70 0 [] []
                (Toy.world0 0) =
      (fst (train_epoch (E := Toy.toy_env) (B := Toy.toy_backend) 10 3 70 0
                        [] [] (Toy.world0 0)),
       Ret ([6 # 3], [240 # 100])) /\
    rollouts (E := Toy.toy_env) (B := Toy.toy_backend) 10 (Z.to_nat 3)
             (Toy.world0 0) = (w1, Ret ts) /\
    [6 # 3] = [] ++ [np_mean (map reward ts)].
Proof.
  assert (train_epoch (E := Toy.toy_env) (B := Toy.toy_backend) 10 3 70 0
            [] [] (Toy.world0 0) =
          (fst (train_epoch (E := Toy.toy_env) (B := Toy.toy_backend) 10 3 70
                            0 [] [] (Toy.world0 0)),
           Ret ([6 # 3], [240 # 100]))) as Hrun
    by (vm_compute; reflexivity).
  destruct (train_epoch_completes (E := Toy.toy_env) (B := Toy.toy_backend)
              _ _ _ _ _ _ _ _ _ _ Hrun)
    as (w1 & ts & _ & _ & _ & _ & Hroll & _ & _ & _ & _ & Hm & _).
  exists w1, ts.
  split; [exact Hrun|]. split; [exact Hroll|exact Hm].
Defined.

Lemma train_runs_every_epoch_witness :
  snd (Toy.toy_train 3 70 2) = Ret None /\
  count_events reset_b (w_log (fst (Toy.toy_train 3 70 2))) = 6%nat /\
  count_events fit_b (w_log (fst (Toy.toy_train 3 70 2))) = 2%nat.
Proof.
  split; [vm_compute; reflexivity|].
  destruct (train_runs_every_epoch (E := Toy.toy_env) (B := Toy.toy_backend)
              10 0%nat tt 3 70 2 (fst (Toy.toy_train 3 70 2)) None)
    as (_ & Hresets & _ & Hfits & _).
  - vm_compute. reflexivity.
  - split; [exact Hresets|exact Hfits].
Defined.

(** ** The batches handed to [fit] *)

Lemma encode_actions_length (elite_actions : list Z) (labels : list (list Z)) :
  encode_actions elite_actions = Ok labels ->
  length labels = length elite_actions.
Proof.
  revert labels. induction elite_actions as [|a rest IH]; intros labels.
  - intros H. now inversion H.
  - cbn [encode_actions mbind result_bind rbind].
    destruct (gen_action_distribution a default_action_dim) as [d|e];
      [|discriminate].
    cbn [rbind]. destruct (encode_actions rest) as [ds|e]; [|discriminate].
    cbn [rbind]. intros H. inversion H; subst. simpl. f_equal. now apply IH.
Qed.

Section FitBatches.

Context {EnvId EnvSt Obs FlatObs Params Rng : Type}.
Context {E : Environment EnvId EnvSt Obs}.
Context {B : Backend Params Rng Obs FlatObs}.

#[local] Abbreviation world := (World EnvSt Params Rng FlatObs).

Ltac bind_step H w a Hm :=
  apply bind_inv in H as [(w & a & Hm & H)|(? & _ & _ & H)];
  [|exfalso; eapply H; reflexivity].
Ltac pair_bind :=
  apply (respects_bind (keeps_paired : world -> world -> Prop));
  [intros ? ? ? H12 H23 H1; exact (H23 (H12 H1))|..].
Ltac pair_ret :=
  apply (respects_ret (keeps_paired : world -> world -> Prop));
  intros ? H; exact H.

Lemma only_env_calls_keeps_paired (w w' : world) :
  only_env_calls w w' -> keeps_paired w w'.
Proof.
  intros [_ (l & Hl & Hf)] Hw. rewrite Hl. apply Forall_app.
  split; [assumption|].
  eapply Forall_impl; [exact Hf|]. intros [] H; simpl in *; tauto.
Qed.

Lemma rollout_ok_inv (fuel : nat) (w w' : world) (O : list FlatObs)
  (A : list Z) (R : Q) :
  rollout fuel w = (w', Ret (O, A, R)) ->
  length O = length A /\ (1 <= length A)%nat.
Proof.
  intros H. unfold rollout, mbind, M_bind in H.
  bind_step H w0 o0 Hreset. bind_step H w1 xp Hloop.
  destruct xp as [[O' A'] R'].
  apply rollout_loop_inv in Hloop as (steps & Hep & _ & -> & -> & ->).
  apply episode_nonempty in Hep.
  unfold bind, close, ret in H. inversion H; subst.
  simpl. rewrite !length_map. split; [reflexivity|assumption].
Qed.

(** Every trajectory collected has one action per observation and at least
    one step. *)
Lemma rollouts_aligned (fuel k : nat) :
  forall (w w' : world) (ts : list (Trajectory FlatObs)),
    rollouts fuel k w = (w', Ret ts) ->
    Forall (fun t => length (obs t) = length (actions t) /\
                     (1 <= length (actions t))%nat) ts.
Proof.
  induction k as [|k IH]; intros w w' ts H; cbn [rollouts] in H.
  - inversion H. constructor.
  - unfold mbind, M_bind in H.
    bind_step H w1 xp Hroll. destruct xp as [[O A] R].
    bind_step H w2 rest Hrest. inversion H; subst.
    constructor; [exact (rollout_ok_inv _ _ _ _ _ _ Hroll)|].
    eapply IH. exact Hrest.
Qed.

(** The elite batch of aligned, non-empty trajectories is aligned and not
    empty. *)
Lemma gather_elite_xp_batch (ts : list (Trajectory FlatObs)) (p : Q)
  (eo : list FlatObs) (ea : list Z) (threshold : Q) :
  Forall (fun t => length (obs t) = length (actions t) /\
                   (1 <= length (actions t))%nat) ts ->
  gather_elite_xp ts p = Ok (eo, ea, threshold) ->
  length eo = length ea /\ (1 <= length ea)%nat.
Proof.
  intros Hal Hg.
  destruct (gather_elite_xp_ok_inv _ _ _ _ _ Hg) as [Hne Hp].
  rewrite (gather_elite_xp_kept _ _ _ Hne Hp) in Hg. inversion Hg; subst.
  split.
  - apply concat_aligned, kept_Forall.
    eapply Forall_impl; [exact Hal|]. simpl. tauto.
  - assert (0 <= p <= 100) as Hrange.
    { destruct (Qlt_le_dec p 0) as [Hneg|Hnonneg];
        [rewrite np_percentile_invalid in Hp by (now left); discriminate|].
      destruct (Qlt_le_dec 100 p) as [Hbig|Hsmall];
        [rewrite np_percentile_invalid in Hp by (now right); discriminate|].
      now split. }
    assert (map reward ts <> []) as Hr
      by (destruct ts; [contradiction|discriminate]).
    destruct (np_percentile_le_some _ _ Hr Hrange)
      as (th' & x & Hth' & Hx & Hle).
    rewrite Hp in Hth'. inversion Hth'; subst th'.
    apply in_map_iff in Hx as (t & <- & Ht).
    assert (In t (kept threshold ts)) as Hk by (apply kept_In; now split).
    rewrite List.Forall_forall in Hal. destruct (Hal t Ht) as [_ Hpos].
    apply in_split in Hk as (l1 & l2 & ->).
    rewrite map_app, concat_app, length_app. simpl.
    rewrite length_app. lia.
Qed.

Lemma train_epoch_paired (fuel : nat) (n : Z) (p : Q) (i : nat)
  (m t : list Q) :
  respects (keeps_paired : world -> world -> Prop)
           (train_epoch fuel n p i m t).
Proof.
  unfold train_epoch, mbind, M_bind.
  pair_bind.
  { eapply respects_weaken; [apply only_env_calls_keeps_paired|].
    apply rollouts_env. }
  intros ts w0 w1 Hroll. apply rollouts_aligned in Hroll.
  pair_bind; [apply respects_lift; intros ? H; exact H|].
  intros [[? ?] batch_rewards] _ _ _.
  pair_bind; [apply respects_lift; intros ? H; exact H|].
  intros [[eo ea] threshold] w2 w3 Hg. apply lift_ret_inv in Hg as [Hg _].
  destruct (gather_elite_xp_batch _ _ _ _ _ Hroll Hg) as [Hlen Hpos].
  pair_bind; [apply respects_lift; intros ? H; exact H|].
  intros labels w4 w5 Hlab. apply lift_ret_inv in Hlab as [Hlab _].
  apply encode_actions_length in Hlab.
  pair_bind.
  { intros v v' r H Hv. unfold learn in H. inversion H; subst. simpl.
    apply Forall_app. split; [assumption|].
    constructor; [|constructor]. simpl. rewrite length_map. lia. }
  intros _ _ _ _.
  pair_bind.
  { intros v v' r H Hv. unfold emit_m in H. inversion H; subst. simpl.
    apply Forall_app. split; [assumption|]. now repeat constructor. }
  intros _ _ _ _. pair_ret.
Qed.

Lemma train_body_paired (fuel : nat) (n : Z) (p : Q) (num_epochs : Z) :
  respects (keeps_paired : world -> world -> Prop)
           (train_body fuel n p num_epochs).
Proof.
  assert (forall k i m t,
            respects (keeps_paired : world -> world -> Prop)
                     (train_epochs fuel n p k i m t)) as Hepochs.
  { induction k as [|k IH]; intros i m t; cbn [train_epochs].
    - pair_ret.
    - unfold mbind, M_bind. pair_bind; [apply train_epoch_paired|].
      intros [m1 t1] _ _ _. apply IH. }
  unfold train_body, mbind, M_bind.
  pair_bind; [apply Hepochs|].
  intros [m t] _ _ _.
  pair_bind.
  { intros v v' r H Hv. unfold emit_m in H. inversion H; subst. simpl.
    apply Forall_app. split; [assumption|]. now repeat constructor. }
  intros _ _ _ _.
  pair_bind.
  { intros v v' r H Hv. unfold emit_m in H. inversion H; subst. simpl.
    apply Forall_app. split; [assumption|]. now repeat constructor. }
  intros _ _ _ _. pair_ret.
Qed.

(** However [train] ends, every batch it handed to [fit] on the way is
    usable as a supervised batch: it holds at least one observation and
    exactly one label per observation. *)
Theorem train_fit_batches_paired (fuel : nat) (seed : Rng) (env_id : EnvId)
  (num_trajectory_rollouts : Z) (p : Q) (num_epochs : Z)
  (batch_obs : list FlatObs) (batch_labels : list (list Z)) :
  In (EvFit batch_obs batch_labels)
     (w_log (fst (train fuel seed env_id num_trajectory_rollouts p
                        num_epochs))) ->
  length batch_obs = length batch_labels /\ (1 <= length batch_obs)%nat.
Proof.
  intros Hin.
  assert (Forall fit_paired
            (w_log (fst (train fuel seed env_id num_trajectory_rollouts p
                               num_epochs)))) as Hall.
  { eapply (train_body_paired fuel num_trajectory_rollouts p num_epochs).
    - unfold train. apply surjective_pairing.
    - constructor. }
  rewrite List.Forall_forall in Hall. exact (Hall _ Hin).
Qed.

(** Collecting the trajectories of an epoch calls nothing but the
    environment and leaves the brain untouched, whether the rollouts all
    return or not: every rollout of an epoch samples from the same
    weights. *)
Theorem rollouts_only_env (fuel k : nat) (w w' : world)
  (r : outcome (list (Trajectory FlatObs))) :
  rollouts fuel k w = (w', r) ->
  w_brain w' = w_brain w /\
  exists l, w_log w' = w_log w ++ l /\ Forall env_event l.
Proof. intros H. exact (rollouts_env fuel k w w' r H). Qed.

End FitBatches.

Lemma train_fit_batches_paired_witness :
  length [[0%Z]; [1%Z]] = length [[0; 1; 0; 0; 0]%Z; [0; 0; 1; 0; 0]%Z] /\
  (1 <= length [[0%Z]; [1%Z]])%nat.
Proof.
  apply (train_fit_batches_paired (E := Toy.toy_env) (B := Toy.toy_backend)
           10 0%nat tt 3 70 1
           [[0%Z]; [1%Z]] [[0; 1; 0; 0; 0]%Z; [0; 0; 1; 0; 0]%Z]).
  vm_compute. do 12 right. left. reflexivity.
Defined.

Lemma rollouts_only_env_witness :
  exists (w' : World nat unit nat (list Z)),
    fst (rollouts (E := Toy.toy_env) (B := Toy.toy_backend) 1 2
                  (Toy.world0 0)) = w' /\
    snd (rollouts (E := Toy.toy_env) (B := Toy.toy_backend) 1 2
                  (Toy.world0 0)) = OutOfFuel /\
    w_brain w' = w_brain (Toy.world0 0).
Proof.
  eexists. split; [reflexivity|]. split; [reflexivity|].
  exact (proj1 (rollouts_only_env (E := Toy.toy_env) (B := Toy.toy_backend)
                  1 2 (Toy.world0 0) _ _ (surjective_pairing _))).
Defined.

(** ** Non-positive scores *)

Section UnguardedSampling.

Context {EnvId EnvSt Obs FlatObs Params Rng : Type}.
Context {E : Environment EnvId EnvSt Obs}.
Context {B : Backend Params Rng Obs FlatObs}.

#[local] Abbreviation world := (World EnvSt Params Rng FlatObs).

(** C9, as the code has it. When the brain scores some action
    non-positively, [get_action] raises nothing. [policy_mlp] hands the
    scores as they are, neither checked nor clamped, to the logarithm and
    the sampler, and returns the index the sampler draws, touching neither
    the environment nor the brain nor the log; the loop of [rollout] then
    steps the environment with that index. *)
Theorem get_action_unguarded (o : Obs) (w : world) :
  Exists (fun score => score <= 0) (predict_on_batch (w_brain w) o) ->
  let drawn := categorical_of_log (w_rng w) (predict_on_batch (w_brain w) o) in
  get_action o w =
    (mkWorld (w_env w) (w_brain w) (fst drawn) (w_log w), Ret (snd drawn)) /\
  (forall e : exn, snd (get_action o w) <> Raise e) /\
  exists (e : EnvSt) (x : Obs * Q * bool),
    bind (get_action o) step w =
      (mkWorld e (w_brain w) (fst drawn) (w_log w ++ [EvStep (snd drawn)]),
       Ret x).
Proof.
  intros _ drawn.
  assert (get_action o w =
            (mkWorld (w_env w) (w_brain w) (fst drawn) (w_log w),
             Ret (snd drawn))) as Hact.
  { unfold get_action, policy_mlp. subst drawn.
    destruct (categorical_of_log _ _) as [g a]. reflexivity. }
  split; [exact Hact|]. split.
  - rewrite Hact. discriminate.
  - rewrite (bind_ret _ _ _ _ _ Hact).
    unfold step. simpl.
    destruct (env_step (w_env w) (snd drawn)) as [e x].
    now exists e, x.
Qed.

End UnguardedSampling.

Lemma get_action_unguarded_witness :
  Exists (fun score => score <= 0) [0; -1; -2] /\
  get_action (B := Malformed.malformed_backend)
             0%nat (Toy.world0 4) =
    (mkWorld 0%nat (w_brain (Toy.world0 4)) 5%nat [], Ret 1%Z).
Proof.
  assert (Exists (fun score => score <= 0) [0; -1; -2]) as Hbad
    by (left; discriminate).
  split; [exact Hbad|].
  exact (proj1 (get_action_unguarded (E := Toy.toy_env)
                  (B := Malformed.malformed_backend) 0%nat (Toy.world0 4)
                  Hbad)).
Defined.

(** A brain whose three scores are 0, -1 and -2: every score is
    non-positive, and [get_action] returns an action all the same. *)
Lemma get_action_returns_on_bad_scores :
  Forall (fun score => score <= 0)
         (predict_on_batch (Backend := Malformed.malformed_backend)
                           (w_brain (Toy.world0 4)) 0%nat) /\
  snd (get_action (B := Malformed.malformed_backend)
                  0%nat (Toy.world0 4)) = Ret 1%Z /\
  (forall e : exn,
     snd (get_action (B := Malformed.malformed_backend)
                     0%nat (Toy.world0 4)) <> Raise e).
Proof.
  split; [repeat constructor; discriminate|].
  split; [reflexivity|discriminate].
Qed.

(** ** The labels that reach [fit] *)

Lemma one_hot_length (n i : nat) : length (one_hot n i) = n.
Proof. unfold one_hot. now rewrite length_insert, length_replicate. Qed.

Lemma encode_actions_ok_inv (elite_actions : list Z) (labels : list (list Z)) :
  encode_actions elite_actions = Ok labels ->
  labels = map (fun a => one_hot 5 (wrapped_index a 5)) elite_actions.
Proof.
  revert labels. induction elite_actions as [|a rest IH]; intros labels.
  - intros H. now inversion H.
  - cbn [encode_actions mbind result_bind rbind].
    destruct (gen_action_distribution a default_action_dim) as [d|e] eqn:Ed;
      [|discriminate].
    cbn [rbind]. destruct (encode_actions rest) as [ds|e]; [|discriminate].
    cbn [rbind]. intros H. inversion H; subst.
    apply gen_action_distribution_ok_inv in Ed as (_ & -> & _).
    simpl. f_equal. now apply IH.
Qed.

Section LabelsReachFit.

Context {EnvId EnvSt Obs FlatObs Params Rng : Type}.
Context {E : Environment EnvId EnvSt Obs}.
Context {B : Backend Params Rng Obs FlatObs}.

#[local] Abbreviation world := (World EnvSt Params Rng FlatObs).

Ltac enc_bind :=
  apply (respects_bind (keeps_encoded : world -> world -> Prop));
  [intros ? ? ? H12 H23 H1; exact (H23 (H12 H1))|..].
Ltac enc_ret :=
  apply (respects_ret (keeps_encoded : world -> world -> Prop));
  intros ? H; exact H.
Ltac grow_bind :=
  apply (respects_bind (log_grows : world -> world -> Prop));
  [intros ? ? ? [l1 H12] [l2 H23]; exists (l1 ++ l2);
   rewrite H23, H12, app_assoc; reflexivity|..].
Ltac grow_ret :=
  apply (respects_ret (log_grows : world -> world -> Prop));
  intros ?; exists []; rewrite app_nil_r; reflexivity.

Lemma only_env_calls_keeps_encoded (w w' : world) :
  only_env_calls w w' -> keeps_encoded w w'.
Proof.
  intros [_ (l & Hl & Hf)] Hw. rewrite Hl. apply Forall_app.
  split; [assumption|].
  eapply Forall_impl; [exact Hf|]. intros [] H; simpl in *; tauto.
Qed.

Lemma only_env_calls_log_grows (w w' : world) :
  only_env_calls w w' -> log_grows w w'.
Proof. intros [_ (l & Hl & _)]. now exists l. Qed.

Lemma lift_keeps {A : Type} (R : world -> world -> Prop) (x : result A) :
  (forall w, R w w) -> respects R (lift x).
Proof. intros HR. now apply respects_lift. Qed.

Lemma emit_m_grows (ev : Event FlatObs) :
  respects (log_grows : world -> world -> Prop) (emit_m ev).
Proof.
  intros v v' r H. unfold emit_m in H. inversion H; subst. now exists [ev].
Qed.

Lemma emit_m_encoded (ev : Event FlatObs) :
  fit_encoded ev ->
  respects (keeps_encoded : world -> world -> Prop) (emit_m ev).
Proof.
  intros Hev v v' r H Hv. unfold emit_m in H. inversion H; subst. simpl.
  apply Forall_app. split; [assumption|]. now repeat constructor.
Qed.

Lemma learn_grows (batch_obs : list FlatObs) (batch_labels : list (list Z)) :
  respects (log_grows : world -> world -> Prop) (learn batch_obs batch_labels).
Proof.
  intros v v' r H. unfold learn in H. inversion H; subst.
  now exists [EvFit batch_obs batch_labels].
Qed.

Lemma train_epoch_encoded (fuel : nat) (n : Z) (p : Q) (i : nat)
  (m t : list Q) :
  respects (keeps_encoded : world -> world -> Prop)
           (train_epoch fuel n p i m t).
Proof.
  unfold train_epoch, mbind, M_bind.
  enc_bind.
  { eapply respects_weaken; [apply only_env_calls_keeps_encoded|].
    apply rollouts_env. }
  intros ts w0 w1 Hroll. apply rollouts_aligned in Hroll.
  enc_bind; [apply lift_keeps; intros ? H; exact H|].
  intros [[? ?] batch_rewards] _ _ _.
  enc_bind; [apply lift_keeps; intros ? H; exact H|].
  intros [[eo ea] threshold] w2 w3 Hg. apply lift_ret_inv in Hg as [Hg _].
  destruct (gather_elite_xp_batch _ _ _ _ _ Hroll Hg) as [Hlen Hpos].
  enc_bind; [apply lift_keeps; intros ? H; exact H|].
  intros labels w4 w5 Hlab. apply lift_ret_inv in Hlab as [Hlab _].
  apply encode_actions_ok_inv in Hlab.
  enc_bind.
  { intros v v' r H Hv. unfold learn in H. inversion H; subst. simpl.
    apply Forall_app. split; [assumption|].
    constructor; [|constructor]. simpl.
    exists ea. rewrite length_map. now repeat split. }
  intros _ _ _ _.
  enc_bind; [now apply emit_m_encoded|].
  intros _ _ _ _. enc_ret.
Qed.

Lemma train_epochs_encoded (fuel : nat) (n : Z) (p : Q) (k : nat) :
  forall (i : nat) (m t : list Q),
    respects (keeps_encoded : world -> world -> Prop)
             (train_epochs fuel n p k i m t).
Proof.
  induction k as [|k IH]; intros i m t; cbn [train_epochs].
  - enc_ret.
  - unfold mbind, M_bind. enc_bind; [apply train_epoch_encoded|].
    intros [m1 t1] _ _ _. apply IH.
Qed.

Lemma train_body_encoded (fuel : nat) (n : Z) (p : Q) (num_epochs : Z) :
  respects (keeps_encoded : world -> world -> Prop)
           (train_body fuel n p num_epochs).
Proof.
  unfold train_body, mbind, M_bind.
  enc_bind; [apply train_epochs_encoded|].
  intros [m t] _ _ _.
  enc_bind; [now apply emit_m_encoded|].
  intros _ _ _ _.
  enc_bind; [now apply emit_m_encoded|].
  intros _ _ _ _. enc_ret.
Qed.

Lemma train_epoch_grows (fuel : nat) (n : Z) (p : Q) (i : nat)
  (m t : list Q) :
  respects (log_grows : world -> world -> Prop)
           (train_epoch fuel n p i m t).
Proof.
  assert (forall v : world, log_grows v v) as Hrefl
    by (intros v; exists []; now rewrite app_nil_r).
  unfold train_epoch, mbind, M_bind.
  grow_bind.
  { eapply respects_weaken; [apply only_env_calls_log_grows|].
    apply rollouts_env. }
  intros ts _ _ _.
  grow_bind; [now apply lift_keeps|].
  intros [[? ?] batch_rewards] _ _ _.
  grow_bind; [now apply lift_keeps|].
  intros [[eo ea] threshold] _ _ _.
  grow_bind; [now apply lift_keeps|].
  intros labels _ _ _.
  grow_bind; [apply learn_grows|].
  intros _ _ _ _.
  grow_bind; [apply emit_m_grows|].
  intros _ _ _ _. grow_ret.
Qed.

Lemma train_epochs_grows (fuel : nat) (n : Z) (p : Q) (k : nat) :
  forall (i : nat) (m t : list Q),
    respects (log_grows : world -> world -> Prop)
             (train_epochs fuel n p k i m t).
Proof.
  induction k as [|k IH]; intros i m t; cbn [train_epochs].
  - grow_ret.
  - unfold mbind, M_bind. grow_bind; [apply train_epoch_grows|].
    intros [m1 t1] _ _ _. apply IH.
Qed.

(** The forward reading of an epoch: once the rollouts have returned and the
    selection and the encoding have gone through, the epoch completes, and
    [fit] has been called on the way. *)
Lemma train_epoch_run (fuel : nat) (n : Z) (p : Q) (i : nat) (m t : list Q)
  (w w1 : world) (ts : list (Trajectory FlatObs)) (eo : list FlatObs)
  (ea : list Z) (threshold : Q) (labels : list (list Z)) :
  rollouts fuel (Z.to_nat n) w = (w1, Ret ts) ->
  gather_elite_xp ts p = Ok (eo, ea, threshold) ->
  encode_actions ea = Ok labels ->
  exists w2 : world,
    train_epoch fuel n p i m t w =
      (w2, Ret (m ++ [np_mean (map reward ts)], t ++ [threshold])) /\
    In (EvFit (map astype_float16 eo) labels) (w_log w2).
Proof.
  intros Hroll Hg Hlab.
  unfold train_epoch, mbind, M_bind.
  rewrite (bind_ret _ _ _ _ _ Hroll).
  destruct ts as [|t0 ts]; [discriminate|].
  unfold bind at 1. cbn [lift unzip_trajectories].
  unfold bind at 1. unfold lift at 1. rewrite Hg.
  unfold bind at 1. unfold lift at 1. rewrite Hlab.
  unfold bind, learn, emit_m, ret. eexists. split; [reflexivity|].
  simpl. apply in_or_app. left. apply in_or_app. right. now left.
Qed.

(** C10. Whatever the environment, the labels [train] builds come from
    [gen_action_distribution] called with its default [action_dim] of 5,
    while the brain's output layer has [env.action_space.n] units.
    - The output layer keeps the width it was built with.
    - Every [fit] call [train] makes carries at least one label, one label
      per observation; its labels are the width-5 encodings of the elite
      actions, so each has length 5; and when [env.action_space.n] is not 5,
      no label has the width of the output layer.
    - Such a call is made: in the first epoch, as soon as the rollouts have
      returned and the selection and the encoding have gone through, [fit]
      has been called with those labels, whatever happens afterwards. *)
Theorem train_labels_default_width (fuel : nat) (seed : Rng) (env_id : EnvId)
  (num_trajectory_rollouts : Z) (p : Q) (num_epochs : Z) :
  let final :=
    fst (train fuel seed env_id num_trajectory_rollouts p num_epochs) in
  logits_units (w_brain final) = action_space_n (gym_make env_id) /\
  (forall batch_obs batch_labels,
     In (EvFit batch_obs batch_labels) (w_log final) ->
     batch_labels <> [] /\
     length batch_labels = length batch_obs /\
     (exists elite_actions : list Z,
        batch_labels =
          map (fun a => one_hot 5 (wrapped_index a 5)) elite_actions) /\
     forall d, In d batch_labels ->
       length d = 5%nat /\
       (action_space_n (gym_make env_id) <> 5%Z ->
        Z.of_nat (length d) <> logits_units (w_brain final))) /\
  ((0 < num_epochs)%Z ->
   forall (w1 : world) (ts : list (Trajectory FlatObs)) (eo : list FlatObs)
          (ea : list Z) (threshold : Q) (labels : list (list Z)),
     rollouts fuel (Z.to_nat num_trajectory_rollouts)
              (initial_world seed env_id) = (w1, Ret ts) ->
     gather_elite_xp ts p = Ok (eo, ea, threshold) ->
     encode_actions ea = Ok labels ->
     In (EvFit (map astype_float16 eo) labels) (w_log final) /\
     labels <> [] /\
     forall d, In d labels -> length d = 5%nat).
Proof.
  intros final.
  assert (train_body fuel num_trajectory_rollouts p num_epochs
            (initial_world seed env_id) =
          (final, snd (train fuel seed env_id num_trajectory_rollouts p
                             num_epochs))) as Hrun
    by (subst final; unfold train; apply surjective_pairing).
  clearbody final.
  assert (logits_units (w_brain final) = action_space_n (gym_make env_id))
    as Hunits.
  { destruct (train_body_labels _ _ _ _ _ _ _ Hrun) as [Hunits _].
    exact Hunits. }
  assert (Forall fit_encoded (w_log final)) as Henc.
  { apply (train_body_encoded _ _ _ _ _ _ _ Hrun). constructor. }
  assert (forall batch_obs batch_labels,
            In (EvFit batch_obs batch_labels) (w_log final) ->
            batch_labels <> [] /\
            length batch_labels = length batch_obs /\
            (exists elite_actions : list Z,
               batch_labels =
                 map (fun a => one_hot 5 (wrapped_index a 5)) elite_actions) /\
            forall d, In d batch_labels -> length d = 5%nat) as Hfit.
  { intros batch_obs batch_labels Hin.
    rewrite List.Forall_forall in Henc. specialize (Henc _ Hin).
    destruct Henc as (ea & Hpos & Hlen & ->).
    split; [destruct ea; [simpl in Hpos; lia|discriminate]|].
    split; [rewrite length_map; congruence|].
    split; [now exists ea|].
    intros d Hd. apply in_map_iff in Hd as (a & <- & _).
    apply one_hot_length. }
  split; [exact Hunits|]. split.
  - intros batch_obs batch_labels Hin.
    destruct (Hfit _ _ Hin) as (Hne & Hlen & Hea & Hfive).
    repeat (split; [assumption|]).
    intros d Hd. split; [now apply Hfive|].
    intros Hn. rewrite (Hfive _ Hd), Hunits.
    intros Heq. apply Hn. symmetry. exact Heq.
  - intros Hpos w1 ts eo ea threshold labels Hroll Hg Hlab.
    assert (In (EvFit (map astype_float16 eo) labels) (w_log final)) as Hin.
    { destruct (Z.to_nat num_epochs) as [|k] eqn:Ek; [lia|].
      destruct (train_epoch_run fuel num_trajectory_rollouts p 0 [] []
                  _ _ _ _ _ _ _ Hroll Hg Hlab) as (w2 & Hepoch & Hin2).
      unfold train_body, mbind, M_bind in Hrun. rewrite Ek in Hrun.
      cbn [train_epochs] in Hrun. unfold mbind, M_bind in Hrun.
      assert (log_grows w2 final) as [l Hl].
      { revert Hrun. unfold bind at 1 2. rewrite Hepoch.
        destruct (train_epochs fuel num_trajectory_rollouts p k 1
                    ([] ++ [np_mean (map reward ts)]) ([] ++ [threshold]) w2)
          as [w3 r3] eqn:Hrest.
        destruct (train_epochs_grows _ _ _ _ _ _ _ _ _ _ Hrest) as [l3 Hl3].
        destruct r3 as [[m3 t3]|e3|]; intros Hrun.
        - unfold bind, emit_m, ret in Hrun. injection Hrun as Hfinal Hv.
          subst final. unfold log_grows. simpl.
          exists (l3 ++ [EvPlot m3; EvPlot t3]).
          rewrite Hl3, <- !app_assoc. reflexivity.
        - injection Hrun as Hfinal Hv. subst final. now exists l3.
        - injection Hrun as Hfinal Hv. subst final. now exists l3. }
      rewrite Hl. apply in_or_app. now left. }
    split; [exact Hin|].
    destruct (Hfit _ _ Hin) as (Hne & _ & _ & Hfive). now split.
Qed.

End LabelsReachFit.

Lemma train_labels_default_width_witness :
  action_space_n (Environment := Toy.toy_env)
    (gym_make (Environment := Toy.toy_env) tt) <> 5%Z /\
  exists (batch_obs : list (list Z)) (batch_labels : list (list Z))
         (d : list Z),
    In (EvFit batch_obs batch_labels) (w_log (fst (Toy.toy_train 3 70 1))) /\
    In d batch_labels /\
    length d = 5%nat /\
    Z.of_nat (length d) <> logits_units (w_brain (fst (Toy.toy_train 3 70 1))).
Proof.
  assert (action_space_n (Environment := Toy.toy_env)
            (gym_make (Environment := Toy.toy_env) tt) <> 5%Z) as Hn
    by discriminate.
  split; [exact Hn|].
  unfold Toy.toy_train.
  pose proof (train_labels_default_width (E := Toy.toy_env)
                (B := Toy.toy_backend) 10 0%nat tt 3 70 1) as H.
  cbv zeta in H. destruct H as (_ & Hfit & Hreach).
  let r := eval vm_compute in
      (rollouts (E := Toy.toy_env) (B := Toy.toy_backend) 10 (Z.to_nat 3)
                (initial_world (E := Toy.toy_env) (B := Toy.toy_backend)
                               0%nat tt)) in
  match r with
  | (?w1, Ret ?ts) =>
      let g := eval vm_compute in (gather_elite_xp ts 70) in
      match g with
      | Ok (?eo, ?ea, ?th) =>
          let e := eval vm_compute in (encode_actions ea) in
          match e with
          | Ok ?labels =>
              destruct (Hreach ltac:(lia) w1 ts eo ea th labels)
                as (Hin & _ & _);
              [vm_compute; reflexivity
              |vm_compute; reflexivity
              |vm_compute; reflexivity
              |]
          end
      end
  end.
  do 2 eexists. exists [0; 1; 0; 0; 0]%Z.
  split; [exact Hin|].
  assert (In [0; 1; 0; 0; 0]%Z [[0; 1; 0; 0; 0]%Z; [0; 0; 1; 0; 0]%Z]) as Hd
    by (left; reflexivity).
  split; [exact Hd|].
  destruct (Hfit _ _ Hin) as (_ & _ & _ & Hwidth).
  destruct (Hwidth _ Hd) as [Hfive Hne].
  split; [exact Hfive|exact (Hne Hn)].
Defined.
